(** * Ledger, games and rate limiter of the casino bot

    A shallow embedding of [utils/database.py], [games/blackjack.py],
    [utils/rate_limiter.py], of the blackjack command handler of [bot.py] and
    of the pay tables of [games/slots.py] and [games/roulette.py], followed
    by the properties of the specification that concern them.

    Conventions of the embedding.
    - Python [int] is [Z].
    - [datetime.now()] is a parameter [now : Z], a reading of the wall clock in
      microseconds (the resolution of [datetime]); the ISO string stored in the
      JSON document is that reading, since [fromisoformat (isoformat t) = t].
    - [time.time()] is a parameter [current_time : Q], in seconds.  The
      difference of two readings is exact here and a rounded float in the
      source.  Where a statement puts a bound on an elapsed time, the bound
      is a whole number of seconds below 2^53, which the rounded difference
      cannot cross.
    - [int(bet * 2.5)] and the like are exact here; the float product of the
      source is exact for the stakes the statements name.
    - [get_user] reads the clock twice for a new account; both fields get the
      one reading [now] here.
    - [random.shuffle] and [uuid.uuid4] are parameters: the shuffled pile and
      the fresh session identifier are handed to [play].
    - A call either returns, raises, or never returns because it waits for a
      lock that its own thread holds; see [outcome]. *)

From Stdlib Require Import ZArith QArith Lia Lqa.
From stdpp Require Import gmap strings list fin_maps sorting pretty.

Open Scope Z_scope.

(* ===================================================================== *)
(** * Outcomes of a call and the state monad that threads them           *)
(* ===================================================================== *)

Inductive exn : Type :=
| KeyError
| IndexError.

(** [Blocked s]: the call never returns; [s] is the store at the moment the
    thread starts to wait. *)
Inductive outcome (S A : Type) : Type :=
| Ret (a : A) (s : S)
| Raise (e : exn) (s : S)
| Blocked (s : S).

Arguments Ret {S A} a s.
Arguments Raise {S A} e s.
Arguments Blocked {S A} s.

Definition M (S A : Type) : Type := S -> outcome S A.

Definition ret {S A} (a : A) : M S A := fun s => Ret a s.

Definition raise {S A} (e : exn) : M S A := fun s => Raise e s.

Definition bind {S A B} (m : M S A) (k : A -> M S B) : M S B :=
  fun s =>
    match m s with
    | Ret a s' => k a s'
    | Raise e s' => Raise e s'
    | Blocked s' => Blocked s'
    end.

Definition gets {S A} (f : S -> A) : M S A := fun s => Ret (f s) s.

Definition modify {S} (f : S -> S) : M S unit := fun s => Ret tt (f s).

Notation "'let*' x ':=' m 'in' k" := (bind m (fun x => k))
  (at level 10, x pattern, m at level 100, k at level 200).

Notation "m ';;' k" := (bind m (fun _ => k))
  (at level 100, k at level 200, right associativity).

(** The store in which a call ended, however it ended. *)
Definition final_state {S A} (o : outcome S A) : S :=
  match o with
  | Ret _ s => s
  | Raise _ s => s
  | Blocked s => s
  end.

Definition returned {S A} (o : outcome S A) : option A :=
  match o with
  | Ret a _ => Some a
  | _ => None
  end.

(* ===================================================================== *)
(** * Insertion-ordered dictionaries                                     *)
(* ===================================================================== *)

(** A Python [dict] iterates in insertion order, and the leaderboard depends
    on that order, so the user table is an association list.  Assigning to an
    existing key keeps its position; a new key is appended. *)
Section Dict.
Context {V : Type}.

Fixpoint dict_get (k : Z) (d : list (Z * V)) : option V :=
  match d with
  | [] => None
  | (k', v) :: d' => if Z.eqb k k' then Some v else dict_get k d'
  end.

Fixpoint dict_set (k : Z) (v : V) (d : list (Z * V)) : list (Z * V) :=
  match d with
  | [] => [(k, v)]
  | (k', v') :: d' =>
      if Z.eqb k k' then (k', v) :: d' else (k', v') :: dict_set k v d'
  end.

Fixpoint dict_del (k : Z) (d : list (Z * V)) : list (Z * V) :=
  match d with
  | [] => []
  | (k', v') :: d' => if Z.eqb k k' then d' else (k', v') :: dict_del k d'
  end.

End Dict.

(* ===================================================================== *)
(** * utils/database.py                                                  *)
(* ===================================================================== *)

Module Database.

(** The lock object of [threading].  [threading.Lock] is not re-entrant: a
    thread that acquires it again while holding it waits forever.
    [threading.RLock] counts nested acquisitions of its owner. *)
Record lock : Type := mk_lock { reentrant : bool; depth : nat }.

Definition threading_Lock : lock := {| reentrant := false; depth := 0 |}.

Definition threading_RLock : lock := {| reentrant := true; depth := 0 |}.

Definition acquire (l : lock) : option lock :=
  match depth l with
  | O => Some {| reentrant := reentrant l; depth := 1 |}
  | S n => if reentrant l
           then Some {| reentrant := true; depth := S (S n) |}
           else None
  end.

Definition release (l : lock) : lock :=
  {| reentrant := reentrant l; depth := Nat.pred (depth l) |}.

Record user_data : Type := mk_user {
  balance : Z;
  total_bet : Z;
  total_won : Z;
  games_played : Z;
  last_daily : option Z;
  stats : gmap string Z;
  created_at : Z;
  last_played : Z
}.

(** [self.data['users']] and [self._lock].  The keys are the user ids
    themselves: [str] is injective on integers and [int (str n) = n]. *)
Record t : Type := mk_db {
  users : list (Z * user_data);
  _lock : lock
}.

(** [Database.__init__] on a document holding [us]. *)
Definition init (us : list (Z * user_data)) : t :=
  {| users := us; _lock := threading_Lock |}.

Definition set_users (f : list (Z * user_data) -> list (Z * user_data)) (db : t) : t :=
  {| users := f (users db); _lock := _lock db |}.

Definition set_lock (l : lock) (db : t) : t :=
  {| users := users db; _lock := l |}.

(** [with self._lock: body].  The lock is released when the body returns or
    raises; a body that never returns keeps it. *)
Definition with_lock {A} (body : M t A) : M t A :=
  fun db =>
    match acquire (_lock db) with
    | None => Blocked db
    | Some l =>
        match body (set_lock l db) with
        | Ret a db' => Ret a (set_lock (release (_lock db')) db')
        | Raise e db' => Raise e (set_lock (release (_lock db')) db')
        | Blocked db' => Blocked db'
        end
    end.

(** [_save_data] writes the document and swallows [IOError]; it changes
    nothing in memory and never raises. *)
Definition _save_data : M t unit := ret tt.

Definition default_stats : gmap string Z :=
  list_to_map
    [("slots_played", 0); ("slots_won", 0);
     ("roulette_played", 0); ("roulette_won", 0);
     ("blackjack_played", 0); ("blackjack_won", 0);
     ("total_winnings", 0); ("total_losses", 0);
     ("biggest_win", 0); ("biggest_loss", 0);
     ("current_streak", 0); ("best_streak", 0)].

Definition new_user (now : Z) : user_data :=
  {| balance := 10000; total_bet := 0; total_won := 0; games_played := 0;
     last_daily := None; stats := default_stats;
     created_at := now; last_played := now |}.

Definition set_last_played (now : Z) (u : user_data) : user_data :=
  {| balance := balance u; total_bet := total_bet u; total_won := total_won u;
     games_played := games_played u; last_daily := last_daily u;
     stats := stats u; created_at := created_at u; last_played := now |}.

Definition set_last_daily (d : option Z) (u : user_data) : user_data :=
  {| balance := balance u; total_bet := total_bet u; total_won := total_won u;
     games_played := games_played u; last_daily := d;
     stats := stats u; created_at := created_at u; last_played := last_played u |}.

Definition set_balance (b : Z) (u : user_data) : user_data :=
  {| balance := b; total_bet := total_bet u; total_won := total_won u;
     games_played := games_played u; last_daily := last_daily u;
     stats := stats u; created_at := created_at u; last_played := last_played u |}.

Definition set_total_bet (b : Z) (u : user_data) : user_data :=
  {| balance := balance u; total_bet := b; total_won := total_won u;
     games_played := games_played u; last_daily := last_daily u;
     stats := stats u; created_at := created_at u; last_played := last_played u |}.

Definition set_stats (s : gmap string Z) (u : user_data) : user_data :=
  {| balance := balance u; total_bet := total_bet u; total_won := total_won u;
     games_played := games_played u; last_daily := last_daily u;
     stats := s; created_at := created_at u; last_played := last_played u |}.

(** [self.data['users'][user_id_str]]: [KeyError] when the key is absent. *)
Definition user_ref (user_id : Z) : M t user_data :=
  fun db =>
    match dict_get user_id (users db) with
    | Some u => Ret u db
    | None => Raise KeyError db
    end.

(** [self.data['users'][user_id_str][field] = ...] on an existing entry. *)
Definition user_update (user_id : Z) (f : user_data -> user_data) : M t unit :=
  let* u := user_ref user_id in
  modify (set_users (dict_set user_id (f u))).

Definition get_user (now : Z) (user_id : Z) : M t user_data :=
  with_lock
    (let* present := gets (fun db => dict_get user_id (users db)) in
     match present with
     | None =>
         modify (set_users (dict_set user_id (new_user now)));;
         _save_data;;
         user_ref user_id
     | Some _ =>
         user_update user_id (set_last_played now);;
         user_ref user_id
     end).

Definition add_balance (now : Z) (user_id amount : Z) : M t unit :=
  with_lock
    (let* user_data := get_user now user_id in
     user_update user_id (fun u => set_balance (balance u + amount) u);;
     _save_data).

Definition subtract_balance (now : Z) (user_id amount : Z) : M t bool :=
  with_lock
    (let* user_data := get_user now user_id in
     if Z.geb (balance user_data) amount then
       user_update user_id (fun u => set_balance (balance u - amount) u);;
       user_update user_id (fun u => set_total_bet (total_bet u + amount) u);;
       _save_data;;
       ret true
     else ret false).

(** [stats[name]]: [KeyError] when the counter is absent. *)
Definition stat_ref (user_id : Z) (name : string) : M t Z :=
  let* u := user_ref user_id in
  match stats u !! name with
  | Some v => ret v
  | None => raise KeyError
  end.

Definition stat_set (user_id : Z) (name : string) (v : Z) : M t unit :=
  user_update user_id (fun u => set_stats (<[name := v]> (stats u)) u).

(** The high-water mark kept next to [total_winnings] and [total_losses]. *)
Definition update_biggest (user_id : Z) (stat_name watched biggest : string) (value : Z) : M t unit :=
  if bool_decide (stat_name = watched) && Z.gtb value 0 then
    let* current_biggest := stat_ref user_id biggest in
    if Z.gtb value current_biggest then stat_set user_id biggest value else ret tt
  else ret tt.

Definition update_stats (now : Z) (user_id : Z) (stat_name : string) (value : Z) : M t unit :=
  with_lock
    (let* user_data := get_user now user_id in
     let* u := user_ref user_id in
     match stats u !! stat_name with
     | Some old =>
         stat_set user_id stat_name (old + value);;
         update_biggest user_id stat_name "total_winnings" "biggest_win" value;;
         update_biggest user_id stat_name "total_losses" "biggest_loss" value;;
         _save_data
     | None => ret tt
     end).

(** [timedelta(hours=24)] in microseconds. *)
Definition hours24 : Z := 24 * 3600 * 1000000.

Definition can_claim_daily (now : Z) (user_id : Z) : M t bool :=
  let* user_data := get_user now user_id in
  match last_daily user_data with
  | None => ret true
  | Some last => ret (Z.geb (now - last) hours24)
  end.

Definition claim_daily (now : Z) (user_id amount : Z) : M t unit :=
  with_lock
    (user_update user_id (set_last_daily (Some now));;
     add_balance now user_id amount).

(** One row of the leaderboard. *)
Record entry : Type := mk_entry {
  e_user_id : Z;
  e_balance : Z;
  e_total_bet : Z;
  e_total_won : Z;
  e_games_played : Z
}.

Definition entry_of (kv : Z * user_data) : entry :=
  {| e_user_id := fst kv; e_balance := balance (snd kv);
     e_total_bet := total_bet (snd kv); e_total_won := total_won (snd kv);
     e_games_played := games_played (snd kv) |}.

(** [users.sort(key=balance, reverse=True)].  Python's sort is stable, also
    with [reverse=True]: rows with equal keys keep their original order.
    The stable sort is written as an insertion sort from the right: a row
    moves past the rows with a strictly greater balance only. *)
Fixpoint insert_desc (x : entry) (l : list entry) : list entry :=
  match l with
  | [] => [x]
  | y :: l' =>
      if Z.ltb (e_balance x) (e_balance y) then y :: insert_desc x l'
      else x :: y :: l'
  end.

Definition sort_desc (l : list entry) : list entry := foldr insert_desc [] l.

Definition get_leaderboard (limit : nat) (db : t) : list entry :=
  take limit (sort_desc (map entry_of (users db))).

(** [for i, user in enumerate(leaderboard): if user['user_id'] == user_id:
    return i + 1] as a scan that counts the rows passed. *)
Fixpoint rank_scan (user_id : Z) (i : Z) (l : list entry) : option Z :=
  match l with
  | [] => None
  | e :: l' => if Z.eqb (e_user_id e) user_id then Some (i + 1)
               else rank_scan user_id (i + 1) l'
  end.

Definition get_user_rank (user_id : Z) (db : t) : Z :=
  let leaderboard := get_leaderboard 1000 db in
  match rank_scan user_id 0 leaderboard with
  | Some r => r
  | None => Z.of_nat (length leaderboard) + 1
  end.

Definition get_user_count (db : t) : nat := length (users db).

Definition reset_user_data (user_id : Z) : M t unit :=
  with_lock
    (let* present := gets (fun db => dict_get user_id (users db)) in
     match present with
     | Some _ => modify (set_users (dict_del user_id));; _save_data
     | None => ret tt
     end).

End Database.

(* ===================================================================== *)
(** * games/blackjack.py                                                 *)
(* ===================================================================== *)

Module BlackjackGame.

Inductive rank : Type :=
| Ace | R2 | R3 | R4 | R5 | R6 | R7 | R8 | R9 | R10 | Jack | Queen | King.

Inductive suit : Type := Spades | Hearts | Diamonds | Clubs.

Record card : Type := mk_card { c_rank : rank; c_suit : suit }.

Definition suits : list suit := [Spades; Hearts; Diamonds; Clubs].

Definition ranks : list rank :=
  [Ace; R2; R3; R4; R5; R6; R7; R8; R9; R10; Jack; Queen; King].

(** [self.card_values]. *)
Definition card_values (r : rank) : Z :=
  match r with
  | Ace => 11
  | R2 => 2 | R3 => 3 | R4 => 4 | R5 => 5 | R6 => 6 | R7 => 7 | R8 => 8
  | R9 => 9 | R10 => 10 | Jack => 10 | Queen => 10 | King => 10
  end.

Definition is_ace (c : card) : bool :=
  match c_rank c with Ace => true | _ => false end.

(** The deck before [random.shuffle]. *)
Definition unshuffled_deck : list card :=
  s ← suits; r ← ranks; [mk_card r s].

Definition card_value (c : card) : Z := card_values (c_rank c).

(** The [for] loop of [hand_value]: [(value, aces)] after the cards of [hand],
    starting from [(value, aces)]. *)
Fixpoint count_hand (hand : list card) (value : Z) (aces : nat) : Z * nat :=
  match hand with
  | [] => (value, aces)
  | c :: hand' =>
      if is_ace c then count_hand hand' (value + 11) (S aces)
      else count_hand hand' (value + card_value c) aces
  end.

(** [while value > 21 and aces > 0: value -= 10; aces -= 1]. *)
Fixpoint demote (aces : nat) (value : Z) : Z :=
  match aces with
  | O => value
  | S aces' => if Z.gtb value 21 then demote aces' (value - 10) else value
  end.

Definition hand_value (hand : list card) : Z :=
  let '(value, aces) := count_hand hand 0 0 in
  demote aces value.

Definition is_blackjack (hand : list card) : bool :=
  Nat.eqb (length hand) 2 && Z.eqb (hand_value hand) 21.

(** The [for] loop of [should_dealer_hit]: [(has_ace_as_11, temp_value)]. *)
Fixpoint soft_scan (hand : list card) (has_ace_as_11 : bool) (temp_value : Z) : bool * Z :=
  match hand with
  | [] => (has_ace_as_11, temp_value)
  | c :: hand' =>
      if is_ace c then
        let temp_value := temp_value + 11 in
        soft_scan hand' (if Z.leb temp_value 17 then true else has_ace_as_11) temp_value
      else soft_scan hand' has_ace_as_11 (temp_value + card_value c)
  end.

Definition should_dealer_hit (dealer_hand : list card) : bool :=
  let value := hand_value dealer_hand in
  if Z.ltb value 17 then true
  else if Z.eqb value 17 then
    let '(has_ace_as_11, temp_value) := soft_scan dealer_hand false 0 in
    has_ace_as_11 && Z.eqb temp_value 17
  else false.

Inductive phase : Type := playing | finished.

Inductive result : Type :=
| push | player_blackjack | dealer_blackjack
| player_bust | dealer_bust | player_wins | dealer_wins.

(** The session dictionary.  [deck] lists the pile in drawing order: its head
    is the card that [deck.pop()] takes, the last element of the Python list. *)
Record game : Type := mk_game {
  game_id : string;
  user_id : Z;
  bet : Z;
  deck : list card;
  player_hand : list card;
  dealer_hand : list card;
  game_state : phase;
  game_result : option result
}.

Definition set_deck (d : list card) (g : game) : game :=
  {| game_id := game_id g; user_id := user_id g; bet := bet g; deck := d;
     player_hand := player_hand g; dealer_hand := dealer_hand g;
     game_state := game_state g; game_result := game_result g |}.

Definition set_player_hand (h : list card) (g : game) : game :=
  {| game_id := game_id g; user_id := user_id g; bet := bet g; deck := deck g;
     player_hand := h; dealer_hand := dealer_hand g;
     game_state := game_state g; game_result := game_result g |}.

Definition set_dealer_hand (h : list card) (g : game) : game :=
  {| game_id := game_id g; user_id := user_id g; bet := bet g; deck := deck g;
     player_hand := player_hand g; dealer_hand := h;
     game_state := game_state g; game_result := game_result g |}.

Definition set_game_state (p : phase) (g : game) : game :=
  {| game_id := game_id g; user_id := user_id g; bet := bet g; deck := deck g;
     player_hand := player_hand g; dealer_hand := dealer_hand g;
     game_state := p; game_result := game_result g |}.

Definition set_result (r : option result) (g : game) : game :=
  {| game_id := game_id g; user_id := user_id g; bet := bet g; deck := deck g;
     player_hand := player_hand g; dealer_hand := dealer_hand g;
     game_state := game_state g; game_result := r |}.

(** [self.db] and [self.active_games]. *)
Record t : Type := mk_bj {
  db : Database.t;
  active_games : gmap string game
}.

Definition set_db (d : Database.t) (s : t) : t :=
  {| db := d; active_games := active_games s |}.

Definition set_active_games (f : gmap string game -> gmap string game) (s : t) : t :=
  {| db := db s; active_games := f (active_games s) |}.

(** A call on [self.db]. *)
Definition on_db {X} (m : M Database.t X) : M t X :=
  fun s =>
    match m (db s) with
    | Ret a d => Ret a (set_db d s)
    | Raise e d => Raise e (set_db d s)
    | Blocked d => Blocked (set_db d s)
    end.

(** [int(bet * 2.5)] and [int(bet * 1.5)]: [int] truncates towards zero.
    The float product is exact below 2^51, far above the largest stake the
    command handler lets through. *)
Definition int_times_2_5 (bet : Z) : Z := Z.quot (bet * 5) 2.

Definition int_times_1_5 (bet : Z) : Z := Z.quot (bet * 3) 2.

(** What [_format_game_result] and the error branch hand to the caller. *)
Record public_state : Type := mk_public {
  p_game_id : string;
  p_game_state : phase;
  p_bet : Z;
  p_player_hand : list card;
  p_dealer_hand : list card;
  p_hide_first : bool;
  p_player_value : Z;
  p_dealer_value : option Z;
  p_result : option result;
  p_payout : option Z;
  p_net_gain : option Z
}.

Inductive reply : Type :=
| error (msg : string)
| shown (p : public_state).

Definition payout_of (r : result) (bet : Z) : Z * Z :=
  match r with
  | player_blackjack => (int_times_2_5 bet, int_times_1_5 bet)
  | player_wins | dealer_bust => (bet * 2, bet)
  | push => (bet, 0)
  | dealer_blackjack | dealer_wins | player_bust => (0, - bet)
  end.

Definition _format_game_result (g : game) : reply :=
  let player_value := hand_value (player_hand g) in
  let dealer_value := hand_value (dealer_hand g) in
  let hide_dealer_card :=
    match game_state g with playing => true | finished => false end in
  shown
    {| p_game_id := game_id g;
       p_game_state := game_state g;
       p_bet := bet g;
       p_player_hand := player_hand g;
       p_dealer_hand := dealer_hand g;
       p_hide_first := hide_dealer_card;
       p_player_value := player_value;
       p_dealer_value := if hide_dealer_card then None else Some dealer_value;
       p_result := game_result g;
       p_payout := (fun r => fst (payout_of r (bet g))) <$> game_result g;
       p_net_gain := (fun r => snd (payout_of r (bet g))) <$> game_result g |}.

(** [pile.pop()]: [IndexError] on an empty pile. *)
Definition pop (pile : list card) : M t (card * list card) :=
  match pile with
  | c :: rest => ret (c, rest)
  | [] => raise IndexError
  end.

Definition is_win (r : option result) : bool :=
  match r with
  | Some player_blackjack | Some player_wins | Some dealer_bust => true
  | _ => false
  end.

Definition is_loss (r : option result) : bool :=
  match r with
  | Some dealer_blackjack | Some dealer_wins | Some player_bust => true
  | _ => false
  end.

Definition _finish_game (now : Z) (gid : string) : M t unit :=
  let* found := gets (fun s => active_games s !! gid) in
  match found with
  | Some g =>
      (if is_win (game_result g) then
         on_db (Database.update_stats now (user_id g) "blackjack_won" 1);;
         let winnings :=
           match game_result g with
           | Some player_blackjack => int_times_1_5 (bet g)
           | _ => bet g
           end in
         on_db (Database.update_stats now (user_id g) "total_winnings" winnings)
       else if is_loss (game_result g) then
         on_db (Database.update_stats now (user_id g) "total_losses" (bet g))
       else ret tt);;
      modify (set_active_games (delete gid))
  | None => ret tt
  end.

Definition play (now : Z) (fresh_id : string) (shuffled : list card)
    (uid stake : Z) : M t reply :=
  on_db (Database.subtract_balance now uid stake);;
  let* (p1, deck1) := pop shuffled in
  let* (p2, deck2) := pop deck1 in
  let* (d1, deck3) := pop deck2 in
  let* (d2, deck4) := pop deck3 in
  let player := [p1; p2] in
  let dealer := [d1; d2] in
  let player_bj := is_blackjack player in
  let dealer_bj := is_blackjack dealer in
  let g0 := {| game_id := fresh_id; user_id := uid; bet := stake; deck := deck4;
               player_hand := player; dealer_hand := dealer;
               game_state := playing; game_result := None |} in
  let* g :=
    (if player_bj && dealer_bj then
       on_db (Database.add_balance now uid stake);;
       ret (set_result (Some push) (set_game_state finished g0))
     else if player_bj then
       let payout := int_times_2_5 stake in
       on_db (Database.add_balance now uid payout);;
       ret (set_result (Some player_blackjack) (set_game_state finished g0))
     else if dealer_bj then
       ret (set_result (Some dealer_blackjack) (set_game_state finished g0))
     else ret g0) in
  (match game_state g with
   | playing => modify (set_active_games (insert fresh_id g))
   | finished => ret tt
   end);;
  on_db (Database.update_stats now uid "blackjack_played" 1);;
  ret (_format_game_result g).

(** The session dictionary is shared between the table and the local variable
    [game]: every assignment to [game[...]] is an assignment to the entry of
    the table, as long as the entry is there. *)
Definition update_game (gid : string) (g : game) : M t unit :=
  modify (set_active_games (fun tbl =>
    match tbl !! gid with
    | Some _ => <[gid := g]> tbl
    | None => tbl
    end)).

Definition not_found : reply := error "Game not found or already finished".

Definition hit (now : Z) (gid : string) : M t reply :=
  let* found := gets (fun s => active_games s !! gid) in
  match found with
  | None => ret not_found
  | Some g =>
      let* (c, rest) := pop (deck g) in
      let g := set_player_hand (player_hand g ++ [c]) (set_deck rest g) in
      update_game gid g;;
      let player_value := hand_value (player_hand g) in
      if Z.gtb player_value 21 then
        let g := set_result (Some player_bust) (set_game_state finished g) in
        update_game gid g;;
        _finish_game now gid;;
        ret (_format_game_result g)
      else ret (_format_game_result g)
  end.

(** [while self.should_dealer_hit(game['dealer_hand']): ...], by recursion on
    the pile: every round takes one card from it.  The result is the pile and
    the dealer's hand when the loop ends, and whether it ended because the
    pile was empty when a card was due. *)
Fixpoint dealer_turn (pile hand : list card) : list card * list card * bool :=
  if should_dealer_hit hand then
    match pile with
    | [] => (pile, hand, true)
    | c :: rest => dealer_turn rest (hand ++ [c])
    end
  else (pile, hand, false).

Definition stand (now : Z) (gid : string) : M t reply :=
  let* found := gets (fun s => active_games s !! gid) in
  match found with
  | None => ret not_found
  | Some g =>
      let '(rest, dealer, exhausted) := dealer_turn (deck g) (dealer_hand g) in
      let g := set_dealer_hand dealer (set_deck rest g) in
      update_game gid g;;
      if exhausted then raise IndexError
      else
        let player_value := hand_value (player_hand g) in
        let dealer_value := hand_value (dealer_hand g) in
        let* g :=
          (if Z.gtb dealer_value 21 then
             on_db (Database.add_balance now (user_id g) (bet g * 2));;
             ret (set_result (Some dealer_bust) g)
           else if Z.gtb player_value dealer_value then
             on_db (Database.add_balance now (user_id g) (bet g * 2));;
             ret (set_result (Some player_wins) g)
           else if Z.gtb dealer_value player_value then
             ret (set_result (Some dealer_wins) g)
           else
             on_db (Database.add_balance now (user_id g) (bet g));;
             ret (set_result (Some push) g)) in
        update_game gid g;;
        let g := set_game_state finished g in
        update_game gid g;;
        _finish_game now gid;;
        ret (_format_game_result g)
  end.

End BlackjackGame.

(* ===================================================================== *)
(** * games/slots.py                                                     *)
(* ===================================================================== *)

Module SlotsGame.

(** The keys of [self.symbols], in the order of the dictionary: cherry,
    lemon, orange, grape, bell, diamond, seven.  Reels hold symbols of the
    machine, as [spin_reels] draws them; on any other string
    [calculate_payout] may raise [KeyError], which is outside this
    embedding. *)
Inductive symbol : Type :=
| cherry | lemon | orange | grape | bell | diamond | seven.

#[global] Instance symbol_eq_dec : EqDecision symbol.
Proof. solve_decision. Defined.

Definition symbols : list symbol :=
  [cherry; lemon; orange; grape; bell; diamond; seven].

(** [self.symbols[symbol]['value']] and [self.symbols[symbol]['weight']]. *)
Definition value (s : symbol) : Z :=
  match s with
  | cherry => 2 | lemon => 3 | orange => 4 | grape => 5
  | bell => 8 | diamond => 15 | seven => 25
  end.

Definition weight (s : symbol) : nat :=
  match s with
  | cherry => 30 | lemon => 25 | orange => 20 | grape => 15
  | bell => 7 | diamond => 2 | seven => 1
  end.

(** [self.symbol_pool]: every symbol repeated [weight] times, in the order of
    the dictionary. *)
Definition symbol_pool : list symbol :=
  s ← symbols; replicate (weight s) s.

(** [random.choice(self.symbol_pool)]: the entry at an index below the length
    of the pool; the index drawn is a parameter. *)
Definition choice (pool : list symbol) (i : nat) : symbol :=
  nth (i mod length pool) pool cherry.

Definition spin_reels (i1 i2 i3 : nat) : list symbol :=
  [choice symbol_pool i1; choice symbol_pool i2; choice symbol_pool i3].

(** [symbol_counts], a dictionary in insertion order. *)
Fixpoint count_get (s : symbol) (counts : list (symbol * Z)) : option Z :=
  match counts with
  | [] => None
  | (s', n) :: counts' => if decide (s = s') then Some n else count_get s counts'
  end.

Fixpoint count_set (s : symbol) (n : Z) (counts : list (symbol * Z)) : list (symbol * Z) :=
  match counts with
  | [] => [(s, n)]
  | (s', n') :: counts' =>
      if decide (s = s') then (s', n) :: counts' else (s', n') :: count_set s n counts'
  end.

(** [for symbol in reels: symbol_counts[symbol] = symbol_counts.get(symbol, 0) + 1]. *)
Definition count_symbols (reels : list symbol) : list (symbol * Z) :=
  foldl (fun counts s => count_set s (default 0 (count_get s counts) + 1) counts) [] reels.

(** [for symbol, count in symbol_counts.items(): if count == 2: ...; break]. *)
Fixpoint first_pair (counts : list (symbol * Z)) : option symbol :=
  match counts with
  | [] => None
  | (s, n) :: counts' => if Z.eqb n 2 then Some s else first_pair counts'
  end.

(** The texts of [win_type]; [blank] is the empty string it starts from. *)
Inductive win_type : Type :=
| blank
| mega_jackpot
| diamond_jackpot
| bell_jackpot
| triple (s : symbol)
| double (s : symbol)
| lucky_sevens
| diamond_pair
| no_win.

Record result : Type := mk_result {
  reels : list symbol;
  multiplier : Q;
  payout : Z;
  net_gain : Z;
  win : win_type;
  is_win : bool
}.

(** [int(x)]: truncation towards zero.  [bet * multiplier] is a product of
    integers when the multiplier is one, and a float product when the
    multiplier is [value * 0.5]; the float product is exact for stakes up to
    2^48 in absolute value. *)
Definition int_of (x : Q) : Z := Z.quot (Qnum x) (Zpos (Qden x)).

(** With one key in [symbol_counts] there is a first reel, so [reels[0]]
    does not raise. *)
Definition calculate_payout (reels : list symbol) (bet : Z) : result :=
  let symbol_counts := count_symbols reels in
  let '(multiplier, win_type) :=
    if Nat.eqb (length symbol_counts) 1 then
      match reels with
      | symbol :: _ =>
          let base_multiplier := value symbol in
          match symbol with
          | seven => (inject_Z (base_multiplier * 10), mega_jackpot)
          | diamond => (inject_Z (base_multiplier * 8), diamond_jackpot)
          | bell => (inject_Z (base_multiplier * 6), bell_jackpot)
          | _ => (inject_Z (base_multiplier * 4), triple symbol)
          end
      | [] => (0%Q, blank)
      end
    else if Nat.eqb (length symbol_counts) 2 then
      match first_pair symbol_counts with
      | Some symbol => ((inject_Z (value symbol) * (1 # 2))%Q, double symbol)
      | None => (0%Q, blank)
      end
    else if Z.geb (default 0 (count_get seven symbol_counts)) 2 then
      (inject_Z 10, lucky_sevens)
    else if Z.geb (default 0 (count_get diamond symbol_counts)) 2 then
      (inject_Z 8, diamond_pair)
    else (0%Q, no_win) in
  let payout := int_of (inject_Z bet * multiplier)%Q in
  let net_gain := payout - bet in
  {| reels := reels; multiplier := multiplier; payout := payout;
     net_gain := net_gain; win := win_type;
     is_win := if Qlt_le_dec 0 multiplier then true else false |}.

End SlotsGame.

(* ===================================================================== *)
(** * games/roulette.py                                                  *)
(* ===================================================================== *)

Module RouletteGame.

(** A bet choice is ASCII text of at most 4300 characters: on such text
    [lower], [isdigit] and [int] below are [str.lower], [str.isdigit] and
    [int] of the source (beyond ASCII the three differ, and [int] refuses
    more than 4300 digits). *)
Definition is_ascii (c : Ascii.ascii) : bool := Nat.ltb (Ascii.nat_of_ascii c) 128.

Fixpoint all_chars (p : Ascii.ascii -> bool) (s : string) : bool :=
  match s with
  | EmptyString => true
  | String c s' => p c && all_chars p s'
  end.

Definition plain (s : string) : bool :=
  all_chars is_ascii s && Nat.leb (String.length s) 4300.

Definition lower_char (c : Ascii.ascii) : Ascii.ascii :=
  let n := Ascii.nat_of_ascii c in
  if Nat.leb 65 n && Nat.leb n 90 then Ascii.ascii_of_nat (n + 32) else c.

Fixpoint lower (s : string) : string :=
  match s with
  | EmptyString => EmptyString
  | String c s' => String (lower_char c) (lower s')
  end.

Definition is_digit (c : Ascii.ascii) : bool :=
  Nat.leb 48 (Ascii.nat_of_ascii c) && Nat.leb (Ascii.nat_of_ascii c) 57.

(** [s.isdigit()]: at least one character, and digits only. *)
Definition isdigit (s : string) : bool :=
  match s with
  | EmptyString => false
  | _ => all_chars is_digit s
  end.

Fixpoint int_from (acc : Z) (s : string) : Z :=
  match s with
  | EmptyString => acc
  | String c s' => int_from (acc * 10 + Z.of_nat (Ascii.nat_of_ascii c - 48)) s'
  end.

(** [int(s)] on a string of digits. *)
Definition int (s : string) : Z := int_from 0 s.

(** [str(number)]. *)
Definition str (number : Z) : string := pretty number.

(** [self.numbers]. *)
Definition numbers : list Z := seqZ 0 37.

Definition red_numbers : gset Z :=
  list_to_set [1; 3; 5; 7; 9; 12; 14; 16; 18; 19; 21; 23; 25; 27; 30; 32; 34; 36].

Definition black_numbers : gset Z :=
  list_to_set [2; 4; 6; 8; 10; 11; 13; 15; 17; 20; 22; 24; 26; 28; 29; 31; 33; 35].

(** [self.bet_types], with the payout of every type, in the order of the
    dictionary. *)
Definition bet_types : list (string * Z) :=
  [("straight", 35);
   ("red", 1); ("black", 1);
   ("even", 1); ("odd", 1);
   ("high", 1); ("low", 1);
   ("1st12", 2); ("2nd12", 2); ("3rd12", 2);
   ("col1", 2); ("col2", 2); ("col3", 2)].

(** [self.bet_types[name]['payout']], and the loop of
    [get_payout_multiplier], which returns at the first match. *)
Fixpoint payout_of_type (name : string) (types : list (string * Z)) : option Z :=
  match types with
  | [] => None
  | (bet_type, payout) :: types' =>
      if String.eqb name bet_type then Some payout else payout_of_type name types'
  end.

(** [random.choice(self.numbers)]: the entry at an index below the length;
    the index drawn is a parameter. *)
Definition spin_wheel (i : nat) : Z := nth (i mod length numbers) numbers 0.

Inductive color : Type := green | red | black.

Definition get_number_color (number : Z) : color :=
  if Z.eqb number 0 then green
  else if bool_decide (number ∈ red_numbers) then red
  else black.

Definition check_win (winning_number : Z) (bet_choice : string) : bool :=
  let bet_choice := lower bet_choice in
  if isdigit bet_choice then Z.eqb (int bet_choice) winning_number
  else if Z.eqb winning_number 0 then String.eqb bet_choice "0"
  else if String.eqb bet_choice "red" then bool_decide (winning_number ∈ red_numbers)
  else if String.eqb bet_choice "black" then bool_decide (winning_number ∈ black_numbers)
  else if String.eqb bet_choice "even" then Z.eqb (winning_number mod 2) 0
  else if String.eqb bet_choice "odd" then Z.eqb (winning_number mod 2) 1
  else if String.eqb bet_choice "high" then
    Z.leb 19 winning_number && Z.leb winning_number 36
  else if String.eqb bet_choice "low" then
    Z.leb 1 winning_number && Z.leb winning_number 18
  else if String.eqb bet_choice "1st12" then
    Z.leb 1 winning_number && Z.leb winning_number 12
  else if String.eqb bet_choice "2nd12" then
    Z.leb 13 winning_number && Z.leb winning_number 24
  else if String.eqb bet_choice "3rd12" then
    Z.leb 25 winning_number && Z.leb winning_number 36
  else if String.eqb bet_choice "col1" then
    Z.eqb (winning_number mod 3) 1 && negb (Z.eqb winning_number 0)
  else if String.eqb bet_choice "col2" then
    Z.eqb (winning_number mod 3) 2 && negb (Z.eqb winning_number 0)
  else if String.eqb bet_choice "col3" then
    Z.eqb (winning_number mod 3) 0 && negb (Z.eqb winning_number 0)
  else false.

Definition get_payout_multiplier (bet_choice : string) : Z :=
  let bet_choice := lower bet_choice in
  if isdigit bet_choice || String.eqb bet_choice "0" then
    default 0 (payout_of_type "straight" bet_types)
  else default 0 (payout_of_type bet_choice bet_types).

(** The dictionary that [validate_bet_choice] returns: [invalid], or [valid]
    with the type and the normalised choice. *)
Inductive validation : Type :=
| valid (type choice : string)
| invalid.

Definition validate_bet_choice (bet_choice : string) : validation :=
  let bet_choice := lower bet_choice in
  let as_number :=
    if isdigit bet_choice then
      let number := int bet_choice in
      if Z.leb 0 number && Z.leb number 36 then Some (valid "straight" (str number))
      else None
    else None in
  match as_number with
  | Some answer => answer
  | None =>
      if bool_decide (is_Some (payout_of_type bet_choice bet_types)) then
        valid bet_choice bet_choice
      else invalid
  end.

End RouletteGame.

(* ===================================================================== *)
(** * utils/rate_limiter.py                                              *)
(* ===================================================================== *)

Module RateLimiter.

(** [self.user_cooldowns], a [defaultdict(dict)] from user to action to the
    time of the last allowed action, and [self.cooldowns], in seconds. *)
Record t : Type := mk_rl {
  user_cooldowns : gmap Z (gmap string Q);
  cooldowns : gmap string Z
}.

Definition init : t :=
  {| user_cooldowns := ∅;
     cooldowns := list_to_map
       [("game", 3); ("balance", 5); ("daily", 86400);
        ("leaderboard", 10); ("stats", 5)] |}.

Definition set_user_cooldowns (f : gmap Z (gmap string Q) -> gmap Z (gmap string Q)) (rl : t) : t :=
  {| user_cooldowns := f (user_cooldowns rl); cooldowns := cooldowns rl |}.

Definition Qltb (a b : Q) : bool := if Qlt_le_dec a b then true else false.

(** [self.user_cooldowns[user_id_str]] on a [defaultdict]: a missing user
    gets an empty dictionary on first access. *)
Definition touch (user_id : Z) (m : gmap Z (gmap string Q)) : gmap Z (gmap string Q) :=
  match m !! user_id with
  | Some _ => m
  | None => <[user_id := ∅]> m
  end.

Definition check_rate_limit (current_time : Q) (user_id : Z) (action : string)
    (rl : t) : bool * t :=
  match cooldowns rl !! action with
  | None => (true, rl)
  | Some cooldown =>
      let rl := set_user_cooldowns (touch user_id) rl in
      let mine := default ∅ (user_cooldowns rl !! user_id) in
      let allowed :=
        (true, set_user_cooldowns (insert user_id (<[action := current_time]> mine)) rl) in
      match mine !! action with
      | Some last_action_time =>
          let time_since_last := (current_time - last_action_time)%Q in
          if Qltb time_since_last (inject_Z cooldown) then (false, rl) else allowed
      | None => allowed
      end
  end.

Definition set_custom_cooldown (action : string) (seconds : Z) (rl : t) : t :=
  {| user_cooldowns := user_cooldowns rl;
     cooldowns := <[action := seconds]> (cooldowns rl) |}.

(** [current_time - last_time > max_age_seconds]. *)
Definition expired (current_time : Q) (max_age_seconds : Z) (last_time : Q) : bool :=
  Qltb (inject_Z max_age_seconds) (current_time - last_time)%Q.

Definition sweep_user (current_time : Q) (max_age_seconds : Z)
    (mine : gmap string Q) : option (gmap string Q) :=
  let kept := filter (fun kv => expired current_time max_age_seconds (snd kv) = false) mine in
  if decide (kept = ∅) then None else Some kept.

Definition cleanup_old_entries (current_time : Q) (max_age_hours : Z) (rl : t) : t :=
  let max_age_seconds := max_age_hours * 3600 in
  set_user_cooldowns (omap (sweep_user current_time max_age_seconds)) rl.

(** [max(0, remaining)]. *)
Definition max0 (remaining : Q) : Q := if Qltb 0 remaining then remaining else 0%Q.

Definition get_remaining_cooldown (current_time : Q) (user_id : Z) (action : string)
    (rl : t) : Q * t :=
  match cooldowns rl !! action with
  | None => (0%Q, rl)
  | Some cooldown =>
      let rl := set_user_cooldowns (touch user_id) rl in
      let mine := default ∅ (user_cooldowns rl !! user_id) in
      match mine !! action with
      | Some last_action_time =>
          let time_since_last := (current_time - last_action_time)%Q in
          let remaining := (inject_Z cooldown - time_since_last)%Q in
          (max0 remaining, rl)
      | None => (0%Q, rl)
      end
  end.

(** [if user_id_str in self.user_cooldowns: del ...]; [in] on a
    [defaultdict] creates nothing. *)
Definition reset_user_cooldowns (user_id : Z) (rl : t) : t :=
  match user_cooldowns rl !! user_id with
  | Some _ => set_user_cooldowns (delete user_id) rl
  | None => rl
  end.

Definition reset_action_cooldown (user_id : Z) (action : string) (rl : t) : t :=
  match user_cooldowns rl !! user_id with
  | Some mine =>
      match mine !! action with
      | Some _ => set_user_cooldowns (insert user_id (delete action mine)) rl
      | None => rl
      end
  | None => rl
  end.

Definition get_cooldown_info (rl : t) : gmap string Z := cooldowns rl.

(** The dictionary of the actions that are still cooling down, with the time
    each has left. *)
Definition is_user_rate_limited (current_time : Q) (user_id : Z) (rl : t) : gmap string Q :=
  match user_cooldowns rl !! user_id with
  | None => ∅
  | Some mine =>
      map_imap (fun action cooldown_period =>
        match mine !! action with
        | Some last_action_time =>
            let time_since_last := (current_time - last_action_time)%Q in
            let remaining := (inject_Z cooldown_period - time_since_last)%Q in
            if Qltb 0 remaining then Some remaining else None
        | None => None
        end) (cooldowns rl)
  end.

End RateLimiter.

(* ===================================================================== *)
(** * bot.py: the blackjack command                                      *)
(* ===================================================================== *)

Module CasinoBot.

(** [bot.rate_limiter] and [bot.blackjack_game]; [bot.db] is the database
    object held by the game. *)
Record t : Type := mk_bot {
  rate_limiter : RateLimiter.t;
  blackjack_game : BlackjackGame.t
}.

Inductive message : Type :=
| please_wait
| minimum_bet
| maximum_bet
| insufficient_balance (have : Z)
| game_embed (r : BlackjackGame.reply).

Definition on_game {X} (m : M BlackjackGame.t X) : M t X :=
  fun b =>
    let put g := {| rate_limiter := rate_limiter b; blackjack_game := g |} in
    match m (blackjack_game b) with
    | Ret a g => Ret a (put g)
    | Raise e g => Raise e (put g)
    | Blocked g => Blocked (put g)
    end.

Definition rate_check (current_time : Q) (uid : Z) (action : string) : M t bool :=
  fun b =>
    let '(ok, rl) := RateLimiter.check_rate_limit current_time uid action (rate_limiter b) in
    Ret ok {| rate_limiter := rl; blackjack_game := blackjack_game b |}.

Definition blackjack_command (current_time : Q) (now : Z) (fresh_id : string)
    (shuffled : list BlackjackGame.card) (uid stake : Z) : M t message :=
  let* ok := rate_check current_time uid "game" in
  if negb ok then ret please_wait
  else if Z.ltb stake 10 then ret minimum_bet
  else if Z.gtb stake 10000 then ret maximum_bet
  else
    let* user_data := on_game (BlackjackGame.on_db (Database.get_user now uid)) in
    if Z.ltb (Database.balance user_data) stake then
      ret (insufficient_balance (Database.balance user_data))
    else
      let* r := on_game (BlackjackGame.play now fresh_id shuffled uid stake) in
      ret (game_embed r).

End CasinoBot.

(* ===================================================================== *)
(** * The specification's own notions                                    *)
(* ===================================================================== *)

Module Spec.
Import BlackjackGame.

(** ** Hand value, as the specification words it

    A counting gives every card of the hand the value it is counted at.
    Initially every card counts its rank value, an ace 11.  While the total
    exceeds 21 and some ace still counts 11, one such ace is re-counted as 1. *)
Definition counting : Type := list (card * Z).

(** Face cards 10, numeral cards their face value, an ace 11. *)
Definition numeral (r : rank) : option Z :=
  match r with
  | R2 => Some 2 | R3 => Some 3 | R4 => Some 4 | R5 => Some 5 | R6 => Some 6
  | R7 => Some 7 | R8 => Some 8 | R9 => Some 9 | R10 => Some 10
  | _ => None
  end.

Definition rank_value (r : rank) : Z :=
  match numeral r with
  | Some n => n
  | None => match r with Ace => 11 | _ => 10 end
  end.

Definition initial_counting (hand : list card) : counting :=
  map (fun c => (c, rank_value (c_rank c))) hand.

Fixpoint total (cs : counting) : Z :=
  match cs with
  | [] => 0
  | (_, v) :: cs' => v + total cs'
  end.

Inductive recount : counting -> counting -> Prop :=
| recount_ace (pre post : counting) (c : card) :
    is_ace c = true ->
    total (pre ++ (c, 11) :: post) > 21 ->
    recount (pre ++ (c, 11) :: post) (pre ++ (c, 1) :: post).

Definition settled (cs : counting) : Prop := forall cs', ~ recount cs cs'.

Definition hand_value_spec (hand : list card) (v : Z) : Prop :=
  exists cs, rtc recount (initial_counting hand) cs /\ settled cs /\ total cs = v.

(** ** Dealer policy, as the specification words it

    The total with every ace counted 1 is the hard total.  A 17 is soft when
    it is not the hard total, that is, when it needs an ace at 11. *)
Fixpoint hard_total (hand : list card) : Z :=
  match hand with
  | [] => 0
  | c :: hand' => (if is_ace c then 1 else rank_value (c_rank c)) + hard_total hand'
  end.

Definition soft17 (hand : list card) : bool :=
  Z.eqb (hand_value hand) 17 && negb (Z.eqb (hard_total hand) 17).

Definition dealer_draws (hand : list card) : bool :=
  Z.ltb (hand_value hand) 17 || soft17 hand.

(** The aces that a counting still counts 11. *)
Fixpoint aces_at_11 (cs : counting) : nat :=
  match cs with
  | [] => O
  | (c, v) :: cs' =>
      if is_ace c && Z.eqb v 11 then S (aces_at_11 cs') else aces_at_11 cs'
  end.

(** The total with every ace counted 11, and the number of aces. *)
Fixpoint raw_total (hand : list card) : Z :=
  match hand with
  | [] => 0
  | c :: hand' => card_value c + raw_total hand'
  end.

Fixpoint aces_in (hand : list card) : nat :=
  match hand with
  | [] => O
  | c :: hand' => if is_ace c then S (aces_in hand') else aces_in hand'
  end.

End Spec.

(* ===================================================================== *)
(** * Concrete cards used in the examples                                *)
(* ===================================================================== *)

Module Cards.
Import BlackjackGame.

Definition ace_s : card := mk_card Ace Spades.
Definition ace_h : card := mk_card Ace Hearts.
Definition ace_d : card := mk_card Ace Diamonds.
Definition king_s : card := mk_card King Spades.
Definition queen_h : card := mk_card Queen Hearts.
Definition ten_c : card := mk_card R10 Clubs.
Definition nine_c : card := mk_card R9 Clubs.
Definition eight_d : card := mk_card R8 Diamonds.
Definition seven_h : card := mk_card R7 Hearts.
Definition six_d : card := mk_card R6 Diamonds.
Definition five_c : card := mk_card R5 Clubs.
Definition two_s : card := mk_card R2 Spades.

End Cards.

(* ===================================================================== *)
(** * The ledger seen from outside                                       *)
(* ===================================================================== *)

Module Ledger.
Import Database.

(** The database while one [with self._lock] block is open. *)
Definition locked (us : list (Z * user_data)) : t :=
  {| users := us; _lock := {| reentrant := false; depth := 1 |} |}.

(** The same document behind a [threading.RLock]: what the operations would
    do if the lock were re-entrant. *)
Definition init_rlock (us : list (Z * user_data)) : t :=
  {| users := us; _lock := threading_RLock |}.

(** The user table after [get_user], and the account it returns. *)
Definition touched (now uid : Z) (us : list (Z * user_data)) : list (Z * user_data) :=
  match dict_get uid us with
  | None => dict_set uid (new_user now) us
  | Some u => dict_set uid (set_last_played now u) us
  end.

Definition account (now uid : Z) (us : list (Z * user_data)) : user_data :=
  match dict_get uid us with
  | None => new_user now
  | Some u => set_last_played now u
  end.

Definition credited (amount : Z) (u : user_data) : user_data :=
  set_balance (balance u + amount) u.

Definition debited (amount : Z) (u : user_data) : user_data :=
  set_total_bet (total_bet u + amount) (set_balance (balance u - amount) u).

(** [lastDailyClaim] unset, or at least 24 hours old. *)
Definition may_claim (now : Z) (u : user_data) : bool :=
  match last_daily u with
  | None => true
  | Some last => Z.geb (now - last) hours24
  end.

Definition last_daily_of (uid : Z) (d : t) : option (option Z) :=
  last_daily <$> dict_get uid (users d).

Definition balance_in (uid : Z) (d : t) : option Z :=
  balance <$> dict_get uid (users d).

(** ** Sequences of debits and credits *)

Inductive op : Type :=
| Debit (uid amount : Z)
| Credit (uid amount : Z).

Definition perform (now : Z) (o : op) (d : t) : t :=
  match o with
  | Debit uid amount => final_state (subtract_balance now uid amount d)
  | Credit uid amount => final_state (add_balance now uid amount d)
  end.

Definition perform_all (now : Z) (os : list op) (d : t) : t :=
  foldl (fun d o => perform now o d) d os.

Definition nonneg_credit (o : op) : Prop :=
  match o with
  | Credit _ amount => 0 <= amount
  | Debit _ _ => True
  end.

(** No account of the table has a negative balance. *)
Definition no_debt (us : list (Z * user_data)) : Prop :=
  Forall (fun kv => 0 <= balance (snd kv)) us.

(** ** Position in the full balance ordering *)

Fixpoint count_rows (p : entry -> bool) (l : list entry) : nat :=
  match l with
  | [] => O
  | e :: l' => if p e then S (count_rows p l') else count_rows p l'
  end.

(** The rows inserted before the row of [uid]. *)
Fixpoint earlier (uid : Z) (l : list entry) : list entry :=
  match l with
  | [] => []
  | e :: l' => if Z.eqb (e_user_id e) uid then [] else e :: earlier uid l'
  end.

Fixpoint row_of (uid : Z) (l : list entry) : option entry :=
  match l with
  | [] => None
  | e :: l' => if Z.eqb (e_user_id e) uid then Some e else row_of uid l'
  end.

(** One more than the number of rows with a strictly greater balance plus the
    number of rows with the same balance that were inserted earlier. *)
Definition position (uid : Z) (l : list entry) : option Z :=
  match row_of uid l with
  | None => None
  | Some me =>
      Some (1 + Z.of_nat (count_rows (fun e => Z.ltb (e_balance me) (e_balance e)) l)
              + Z.of_nat (count_rows (fun e => Z.eqb (e_balance e) (e_balance me))
                                     (earlier uid l)))
  end.

Definition rank (uid : Z) (db : t) : option Z :=
  position uid (map entry_of (users db)).

Definition desc (x y : entry) : Prop := e_balance y <= e_balance x.

(** Every row of [uid] in [l] carries the balance [b]. *)
Definition owns (uid b : Z) (l : list entry) : Prop :=
  Forall (fun e => e_user_id e = uid -> e_balance e = b) l.

(** An account as [get_user] creates it, its two time stamps apart: the
    source reads the clock once for [created_at] and once more for
    [last_played]. *)
Definition starting_account (u : user_data) : Prop :=
  balance u = 10000 /\ total_bet u = 0 /\ total_won u = 0 /\ games_played u = 0 /\
  last_daily u = None /\ stats u = default_stats.

End Ledger.

(* ===================================================================== *)
(** * The session engine seen from outside                               *)
(* ===================================================================== *)

Module SessionEngine.
Import BlackjackGame.

Inductive operation : Type :=
| Start (fresh_id : string) (shuffled : list card) (uid stake : Z)
| Hit (gid : string)
| Stand (gid : string).

Definition run (now : Z) (op : operation) : M t reply :=
  match op with
  | Start fresh_id shuffled uid stake => play now fresh_id shuffled uid stake
  | Hit gid => hit now gid
  | Stand gid => stand now gid
  end.

Definition addressed (op : operation) : option string :=
  match op with
  | Start _ _ _ _ => None
  | Hit gid | Stand gid => Some gid
  end.

(** No session of the table is in phase [finished]. *)
Definition all_playing (s : t) : Prop :=
  forall gid g, active_games s !! gid = Some g -> game_state g = playing.

Definition fresh_table (d : Database.t) : t := {| db := d; active_games := ∅ |}.

Definition stat_of (uid : Z) (name : string) (s : t) : option Z :=
  u ← dict_get uid (Database.users (db s)); Database.stats u !! name.

Definition balance_of (uid : Z) (s : t) : option Z :=
  Database.balance <$> dict_get uid (Database.users (db s)).

Definition result_of (r : option reply) : option result :=
  match r with
  | Some (shown p) => p_result p
  | _ => None
  end.

Definition bot_with (rl : RateLimiter.t) (us : list (Z * Database.user_data))
    (tbl : gmap string game) : CasinoBot.t :=
  {| CasinoBot.rate_limiter := rl;
     CasinoBot.blackjack_game := {| db := Database.init us; active_games := tbl |} |}.

End SessionEngine.

(* ===================================================================== *)
(** * The rate limiter seen from outside                                 *)
(* ===================================================================== *)

Module Allow.
Import RateLimiter.

(** The time recorded for [(user_id, action)], if any. *)
Definition recorded (user_id : Z) (action : string) (rl : t) : option Q :=
  default ∅ (user_cooldowns rl !! user_id) !! action.

End Allow.

(* ===================================================================== *)
(** * Scenarios                                                          *)
(* ===================================================================== *)

Module Scenario.
Import BlackjackGame Cards.

(** One account holding 100 coins. *)
Definition poor : list (Z * Database.user_data) :=
  [(1, Database.set_balance 100 (Database.new_user 0))].

(** Player 10 7, dealer 9 8, then a 2. *)
Definition plain_pile : list card :=
  [ten_c; seven_h; nine_c; eight_d; two_s; king_s; queen_h].

(** Player 10 7, dealer 9 8, then a king. *)
Definition bust_pile : list card :=
  [ten_c; seven_h; nine_c; eight_d; king_s; two_s; queen_h].

(** Player A K, dealer 9 8. *)
Definition natural_pile : list card :=
  [ace_s; king_s; nine_c; eight_d; two_s].

(** Player 9 8, dealer A K. *)
Definition dealer_natural_pile : list card :=
  [nine_c; eight_d; ace_s; king_s; two_s].

(** A round in progress: player 10 5, dealer 9 8, a 2 on top of the pile. *)
Definition round : game :=
  {| game_id := "g1"; user_id := 1; bet := 500;
     deck := [two_s; king_s];
     player_hand := [ten_c; five_c]; dealer_hand := [nine_c; eight_d];
     game_state := playing; game_result := None |}.

Definition one_round : t :=
  {| db := Database.init []; active_games := {[ "g1" := round ]} |}.

(** An account whose daily bonus was claimed at time 0. *)
Definition claimed_at_0 : list (Z * Database.user_data) :=
  [(1, Database.set_last_daily (Some 0) (Database.new_user 0))].

Definition one_hour : Z := 3600 * 1000000.

(** The limiter after user 7 was allowed a "daily" action at time 0. *)
Definition claimed_once : RateLimiter.t :=
  snd (RateLimiter.check_rate_limit 0 7 "daily" RateLimiter.init).

(** [n] accounts, all with the starting balance, inserted in the order
    1, 2, ..., n. *)
Definition crowd (n : nat) : list (Z * Database.user_data) :=
  map (fun i => (Z.of_nat i, Database.new_user 0)) (seq 1 n).

Definition two_accounts : list (Z * Database.user_data) :=
  [(1, Database.set_balance 100 (Database.new_user 0));
   (2, Database.set_balance 300 (Database.new_user 0))].

End Scenario.

(* ===================================================================== *)
(** * What a call leaves as it is                                        *)
(* ===================================================================== *)

Module Frame.
Import Database.

(** The accounts of the users other than [uid] are the same in both tables. *)
Definition others_kept (uid : Z) (us us' : list (Z * user_data)) : Prop :=
  forall other, other <> uid -> dict_get other us' = dict_get other us.

(** Every account of the first table is in the second, with the same balance
    and the same total stake. *)
Definition money_kept (us us' : list (Z * user_data)) : Prop :=
  forall uid u, dict_get uid us = Some u ->
    exists u', dict_get uid us' = Some u' /\
      balance u' = balance u /\ total_bet u' = total_bet u.

(** A call relates the user table it starts from to the user table it ends
    in, whether it returns, raises or blocks. *)
Definition preserves {S A} (table : S -> list (Z * user_data))
    (R : relation (list (Z * user_data))) (m : M S A) : Prop :=
  forall s, R (table s) (table (final_state (m s))).

End Frame.

Module Table.
Import BlackjackGame.

(** The user table behind the blackjack engine. *)
Definition accounts (s : t) : list (Z * Database.user_data) := Database.users (db s).

(** Session [g'] is session [g] after the cards [to_player] and then the
    cards [to_dealer] went from the top of the pile to the end of the two
    hands; owner, stake and identifier are the same. *)
Definition draws (g g' : game) (to_player to_dealer : list card) : Prop :=
  game_id g' = game_id g /\ user_id g' = user_id g /\ bet g' = bet g /\
  deck g = to_player ++ to_dealer ++ deck g' /\
  player_hand g' = player_hand g ++ to_player /\
  dealer_hand g' = dealer_hand g ++ to_dealer.

(** The sessions other than [gid] are the same in both tables. *)
Definition other_sessions_kept (gid : string) (s s' : t) : Prop :=
  forall other, other <> gid -> active_games s' !! other = active_games s !! other.

End Table.

(* ===================================================================== *)
(** * The tables of the two other games                                  *)
(* ===================================================================== *)

Module Paytable.
Import SlotsGame.

(** The pay table of a line of three reels, as [get_symbol_info] words it:
    three sevens pay 250 times the stake, three diamonds 120 times, three
    bells 48 times, three of another symbol four times its value; two of a
    kind pay half the value of the paired symbol; anything else pays
    nothing. *)
Definition line (r1 r2 r3 : symbol) : Q * win_type :=
  if decide (r1 = r2 /\ r2 = r3) then
    match r1 with
    | seven => (inject_Z 250, mega_jackpot)
    | diamond => (inject_Z 120, diamond_jackpot)
    | bell => (inject_Z 48, bell_jackpot)
    | _ => (inject_Z (4 * value r1), triple r1)
    end
  else if decide (r1 = r2 \/ r1 = r3) then (inject_Z (value r1) / inject_Z 2, double r1)%Q
  else if decide (r2 = r3) then (inject_Z (value r2) / inject_Z 2, double r2)%Q
  else (0%Q, no_win).

(** The stake times a multiplier, cut to a whole number of coins. *)
Definition pays (bet : Z) (m : Q) : Z := Z.quot (bet * Qnum m) (Zpos (Qden m)).

End Paytable.

Module Wheel.
Import RouletteGame.

(** The bets on something other than a single number. *)
Definition outside_bets : list string :=
  ["red"; "black"; "even"; "odd"; "high"; "low";
   "1st12"; "2nd12"; "3rd12"; "col1"; "col2"; "col3"].

(** The bets on the single numbers 0 to 36, as [str] writes them. *)
Definition straight_bets : list string := map str numbers.

(** The numbers of the wheel on which a bet wins. *)
Definition winners (bet_choice : string) : list Z :=
  filter (fun n => check_win n bet_choice = true) numbers.

End Wheel.

(* ===================================================================== *)
(** * Properties                                                         *)
(* ===================================================================== *)

(** ** The monad and the dictionaries *)

Section MonadFacts.
Context {S A B : Type}.

Lemma bind_Ret (m : M S A) (k : A -> M S B) (s s' : S) (b : B) :
  bind m k s = Ret b s' <-> exists a s1, m s = Ret a s1 /\ k a s1 = Ret b s'.
Proof.
  unfold bind. destruct (m s) as [a s1|e s1|s1]; split; try done.
  - eauto.
  - by intros (a' & s2 & [= -> ->] & Hk).
  - by intros (? & ? & ? & ?).
  - by intros (? & ? & ? & ?).
Qed.

End MonadFacts.

Section DictFacts.
Context {V : Type}.
Implicit Types (d : list (Z * V)) (k : Z) (v : V).

Lemma dict_get_set_eq d k v : dict_get k (dict_set k v d) = Some v.
Proof.
  induction d as [|[k' v'] d IH]; simpl.
  - by rewrite Z.eqb_refl.
  - destruct (Z.eqb_spec k k') as [->|Hne]; simpl.
    + by rewrite Z.eqb_refl.
    + destruct (Z.eqb_spec k k'); [done|]. apply IH.
Qed.

Lemma dict_get_set_ne d k k' v : k <> k' -> dict_get k' (dict_set k v d) = dict_get k' d.
Proof.
  intros Hne. induction d as [|[k0 v0] d IH]; simpl.
  - destruct (Z.eqb_spec k' k); [congruence|done].
  - destruct (Z.eqb_spec k k0) as [->|Hne0]; simpl.
    + destruct (Z.eqb_spec k' k0); [congruence|done].
    + destruct (Z.eqb_spec k' k0); [done|apply IH].
Qed.

Lemma dict_set_set d k v1 v2 : dict_set k v2 (dict_set k v1 d) = dict_set k v2 d.
Proof.
  induction d as [|[k' v'] d IH]; simpl.
  - by rewrite Z.eqb_refl.
  - destruct (Z.eqb_spec k k') as [->|Hne]; simpl.
    + by rewrite Z.eqb_refl.
    + destruct (Z.eqb_spec k k'); [done|]. by rewrite IH.
Qed.

(** Assigning to an existing key keeps the order of the keys. *)
Lemma dict_set_keys d k v :
  is_Some (dict_get k d) -> map fst (dict_set k v d) = map fst d.
Proof.
  induction d as [|[k' v'] d IH]; simpl.
  - by intros [? ?].
  - destruct (Z.eqb_spec k k') as [->|Hne]; simpl; [done|].
    intros H. by rewrite IH.
Qed.

End DictFacts.

Lemma elem_of_map {X Y} (f : X -> Y) (l : list X) (y : Y) :
  y ∈ map f l <-> exists x, y = f x /\ x ∈ l.
Proof.
  rewrite list_elem_of_In, in_map_iff. setoid_rewrite list_elem_of_In.
  split; intros (x & ? & ?); exists x; split; done.
Qed.

(** ** Hand value (C6) *)

Section HandValue.
Import BlackjackGame Spec Cards.

Lemma total_app (xs ys : counting) : total (xs ++ ys) = total xs + total ys.
Proof. induction xs as [|[c v] xs IH]; simpl; lia. Qed.

Lemma aces_at_11_app (xs ys : counting) :
  aces_at_11 (xs ++ ys) = (aces_at_11 xs + aces_at_11 ys)%nat.
Proof.
  induction xs as [|[c v] xs IH]; simpl; [done|].
  destruct (is_ace c && (v =? 11)); simpl; lia.
Qed.

Lemma count_hand_initial (hand : list card) (value : Z) (aces : nat) :
  count_hand hand value aces =
  (value + total (initial_counting hand),
   (aces + aces_at_11 (initial_counting hand))%nat).
Proof.
  revert value aces. induction hand as [|c hand IH]; intros value aces; simpl.
  - f_equal; lia.
  - unfold card_value, is_ace, rank_value, numeral.
    destruct (c_rank c) eqn:Hr; simpl; rewrite IH; f_equal; lia.
Qed.

Lemma rank_value_card_value (c : card) : rank_value (c_rank c) = card_value c.
Proof. unfold card_value. by destruct (c_rank c). Qed.

Lemma recount_effect (cs cs' : counting) :
  recount cs cs' ->
  total cs > 21 /\ total cs' = total cs - 10 /\ aces_at_11 cs = S (aces_at_11 cs').
Proof.
  intros [pre post c Hace Hgt]. split; [done|].
  rewrite !total_app, !aces_at_11_app. simpl. rewrite Hace. simpl. split; lia.
Qed.

Lemma ace_at_11_split (cs : counting) :
  (0 < aces_at_11 cs)%nat ->
  exists pre c post, cs = pre ++ (c, 11) :: post /\ is_ace c = true.
Proof.
  induction cs as [|[c v] cs IH]; simpl; [lia|].
  destruct (is_ace c) eqn:Hace; simpl.
  - destruct (Z.eqb_spec v 11) as [->|Hne].
    + intros _. by exists [], c, cs.
    + intros Hpos. destruct (IH Hpos) as (pre & c' & post & -> & Hc').
      by exists ((c, v) :: pre), c', post.
  - intros Hpos. destruct (IH Hpos) as (pre & c' & post & -> & Hc').
    by exists ((c, v) :: pre), c', post.
Qed.

Lemma settled_iff (cs : counting) :
  settled cs <-> total cs <= 21 \/ aces_at_11 cs = O.
Proof.
  split.
  - intros Hs. destruct (Z_le_gt_dec (total cs) 21) as [|Hgt]; [by left|right].
    destruct (aces_at_11 cs) eqn:Hn; [done|exfalso].
    destruct (ace_at_11_split cs) as (pre & c & post & -> & Hace); [lia|].
    by apply (Hs (pre ++ (c, 1) :: post)), recount_ace.
  - intros Hor cs' Hstep. apply recount_effect in Hstep. lia.
Qed.

Lemma demote_settled (cs : counting) :
  settled cs -> demote (aces_at_11 cs) (total cs) = total cs.
Proof.
  intros [Hle| ->]%settled_iff; [|done].
  destruct (aces_at_11 cs); simpl; [done|].
  destruct (Z.gtb_spec (total cs) 21); [lia|done].
Qed.

Lemma recount_run_total (cs cs' : counting) :
  rtc recount cs cs' -> settled cs' ->
  total cs' = demote (aces_at_11 cs) (total cs).
Proof.
  induction 1 as [cs|cs cs1 cs2 Hstep _ IH]; intros Hs.
  - by rewrite demote_settled.
  - apply recount_effect in Hstep as (Hgt & Htot & Hn).
    rewrite Hn. simpl. destruct (Z.gtb_spec (total cs) 21); [|lia].
    rewrite <- Htot. by apply IH.
Qed.

Lemma recount_run_exists (n : nat) : forall cs : counting,
  aces_at_11 cs = n -> exists cs', rtc recount cs cs' /\ settled cs'.
Proof.
  induction n as [|n IH]; intros cs Hn.
  - exists cs. split; [done|]. apply settled_iff. by right.
  - destruct (Z_le_gt_dec (total cs) 21) as [Hle|Hgt].
    + exists cs. split; [done|]. apply settled_iff. by left.
    + destruct (ace_at_11_split cs) as (pre & c & post & -> & Hace); [lia|].
      assert (Hstep : recount (pre ++ (c, 11) :: post) (pre ++ (c, 1) :: post))
        by by apply recount_ace.
      destruct (IH (pre ++ (c, 1) :: post)) as (cs' & Hrun & Hs).
      { apply recount_effect in Hstep. lia. }
      exists cs'. split; [|done]. by eapply rtc_l.
Qed.

(** C6.  For every hand, the value computed by [hand_value] is the total the
    specification describes: start from the rank values with every ace at 11
    and, while the total exceeds 21 and an ace still counts 11, re-count one
    ace as 1; that total exists and is unique.  In particular A A 9 is 21,
    A A A 8 is 21, K Q is 20, and the two cards A K are a natural blackjack. *)
Theorem hand_value_as_specified (hand : list card) :
  hand_value_spec hand (hand_value hand) /\
  (forall v, hand_value_spec hand v -> v = hand_value hand) /\
  hand_value [ace_s; ace_h; nine_c] = 21 /\
  hand_value [ace_s; ace_h; ace_d; eight_d] = 21 /\
  hand_value [king_s; queen_h] = 20 /\
  is_blackjack [ace_s; king_s] = true.
Proof.
  assert (Hv : forall cs, rtc recount (initial_counting hand) cs -> settled cs ->
                          total cs = hand_value hand).
  { intros cs Hrun Hs. rewrite (recount_run_total _ _ Hrun Hs).
    unfold hand_value. rewrite count_hand_initial. simpl. f_equal. }
  split; [|split; [|repeat split]].
  - destruct (recount_run_exists _ (initial_counting hand) eq_refl) as (cs & Hrun & Hs).
    exists cs. eauto.
  - intros v (cs & Hrun & Hs & <-). eauto.
Qed.

End HandValue.

(** ** Dealer policy (C5) *)

Section DealerPolicy.
Import BlackjackGame Spec Cards.

Lemma card_value_pos (c : card) : 2 <= card_value c.
Proof. unfold card_value. destruct (c_rank c); simpl; lia. Qed.

Lemma card_value_ace (c : card) : is_ace c = true -> card_value c = 11.
Proof. unfold is_ace, card_value. by destruct (c_rank c). Qed.

Lemma raw_total_nonneg (hand : list card) : 0 <= raw_total hand.
Proof.
  induction hand as [|c hand IH]; simpl; [lia|].
  pose proof (card_value_pos c). lia.
Qed.

Lemma count_hand_raw (hand : list card) (value : Z) (aces : nat) :
  count_hand hand value aces = (value + raw_total hand, (aces + aces_in hand)%nat).
Proof.
  revert value aces. induction hand as [|c hand IH]; intros value aces; simpl.
  - f_equal; lia.
  - destruct (is_ace c) eqn:Hace; rewrite IH;
      [rewrite (card_value_ace c Hace)|]; f_equal; lia.
Qed.

Lemma hand_value_raw (hand : list card) :
  hand_value hand = demote (aces_in hand) (raw_total hand).
Proof. unfold hand_value. by rewrite count_hand_raw. Qed.

Lemma hard_total_raw (hand : list card) :
  hard_total hand = raw_total hand - 10 * Z.of_nat (aces_in hand).
Proof.
  induction hand as [|c hand IH]; simpl; [done|]. rewrite rank_value_card_value.
  destruct (is_ace c) eqn:Hace; [rewrite (card_value_ace c Hace)|]; lia.
Qed.

Lemma soft_scan_flag_kept (hand : list card) (temp_value : Z) :
  fst (soft_scan hand true temp_value) = true.
Proof.
  revert temp_value. induction hand as [|c hand IH]; intros t; simpl; [done|].
  destruct (is_ace c); [|done]. by destruct (t + 11 <=? 17).
Qed.

Lemma soft_scan_temp (hand : list card) (flag : bool) (temp_value : Z) :
  snd (soft_scan hand flag temp_value) = temp_value + raw_total hand.
Proof.
  revert flag temp_value. induction hand as [|c hand IH]; intros b t; simpl; [lia|].
  destruct (is_ace c) eqn:Hace; rewrite IH; [rewrite (card_value_ace c Hace)|]; lia.
Qed.

Lemma soft_scan_flag_needs_ace (hand : list card) (temp_value : Z) :
  fst (soft_scan hand false temp_value) = true -> (0 < aces_in hand)%nat.
Proof.
  revert temp_value. induction hand as [|c hand IH]; intros t; simpl; [done|].
  destruct (is_ace c); [lia|]. apply IH.
Qed.

Lemma soft_scan_flag_set (hand : list card) (flag : bool) (temp_value : Z) :
  (0 < aces_in hand)%nat -> temp_value + raw_total hand <= 17 ->
  fst (soft_scan hand flag temp_value) = true.
Proof.
  revert flag temp_value. induction hand as [|c hand IH]; intros b t; simpl; [lia|].
  pose proof (raw_total_nonneg hand).
  destruct (is_ace c) eqn:Hace.
  - rewrite (card_value_ace c Hace). intros _ Hle.
    destruct (Z.leb_spec (t + 11) 17); [|lia]. apply soft_scan_flag_kept.
  - intros Hpos Hle. apply IH; [done|lia].
Qed.

(** What the code does at 17: it draws exactly when the hand holds an ace and
    totals 17 with every ace counted 11. *)
Lemma should_dealer_hit_at_17 (hand : list card) :
  hand_value hand = 17 ->
  should_dealer_hit hand = true <-> (0 < aces_in hand)%nat /\ raw_total hand = 17.
Proof.
  intros Hv. unfold should_dealer_hit. rewrite Hv. simpl.
  destruct (soft_scan hand false 0) as [flag temp] eqn:Hscan.
  pose proof (soft_scan_temp hand false 0) as Htemp.
  pose proof (soft_scan_flag_needs_ace hand 0) as Hneeds.
  pose proof (soft_scan_flag_set hand false 0) as Hset.
  rewrite Hscan in *. simpl in *.
  rewrite andb_true_iff, Z.eqb_eq. split.
  - intros [-> ->]. split; [by apply Hneeds|lia].
  - intros [Hpos Hraw]. split; [apply Hset; [done|lia]|lia].
Qed.

(** The code never draws where the specification's policy stops. *)
Lemma should_dealer_hit_sound (hand : list card) :
  should_dealer_hit hand = true -> dealer_draws hand = true.
Proof.
  intros Hhit. unfold dealer_draws, soft17.
  destruct (Z.ltb_spec (hand_value hand) 17) as [|Hge]; [done|simpl].
  destruct (Z.eqb_spec (hand_value hand) 17) as [Hv|Hne].
  - apply should_dealer_hit_at_17 in Hhit as [Hpos Hraw]; [|done].
    simpl. rewrite hard_total_raw, Hraw.
    destruct (Z.eqb_spec (17 - 10 * Z.of_nat (aces_in hand)) 17); [lia|done].
  - unfold should_dealer_hit in Hhit.
    destruct (Z.ltb_spec (hand_value hand) 17); [lia|].
    destruct (Z.eqb_spec (hand_value hand) 17); [lia|done].
Qed.

(** With at most one ace in the hand the code follows the policy. *)
Lemma should_dealer_hit_one_ace (hand : list card) :
  (aces_in hand <= 1)%nat -> should_dealer_hit hand = dealer_draws hand.
Proof.
  intros Hone.
  destruct (should_dealer_hit hand) eqn:Hhit.
  { symmetry. by apply should_dealer_hit_sound. }
  symmetry. unfold dealer_draws, soft17.
  unfold should_dealer_hit in Hhit.
  destruct (Z.ltb_spec (hand_value hand) 17) as [|Hge]; [done|simpl].
  destruct (Z.eqb_spec (hand_value hand) 17) as [Hv|Hne]; [simpl|done].
  assert (Hno : ~ ((0 < aces_in hand)%nat /\ raw_total hand = 17)).
  { intros Hyes. apply should_dealer_hit_at_17 in Hyes; [|done].
    unfold should_dealer_hit in Hyes. rewrite Hv in Hyes. simpl in Hyes. congruence. }
  rewrite hard_total_raw. rewrite hand_value_raw in Hv.
  destruct (aces_in hand) as [|[|n]] eqn:Haces; [| |lia]; simpl in Hv.
  - destruct (Z.eqb_spec (raw_total hand - 10 * Z.of_nat 0) 17); [done|lia].
  - destruct (Z.gtb_spec (raw_total hand) 21).
    + destruct (Z.eqb_spec (raw_total hand - 10 * Z.of_nat 1) 17); [done|lia].
    + exfalso. apply Hno. lia.
Qed.

(** C5.  The hand A A 5 totals 17 with one ace at 11; with every ace at 1 it
    totals 7, so the 17 is soft and the policy of the specification draws.
    [should_dealer_hit] answers no: the dealer stops on this soft 17.  The two
    hands the specification names behave as it says: A 6 draws, 10 7 stops. *)
Theorem dealer_stops_on_two_ace_soft_17 :
  hand_value [ace_s; ace_h; five_c] = 17 /\
  hard_total [ace_s; ace_h; five_c] = 7 /\
  dealer_draws [ace_s; ace_h; five_c] = true /\
  should_dealer_hit [ace_s; ace_h; five_c] = false /\
  should_dealer_hit [ace_s; six_d] = true /\
  should_dealer_hit [ten_c; seven_h] = false.
Proof. repeat split; reflexivity. Qed.

End DealerPolicy.

(** ** The ledger (C1, C3, C10) *)

Ltac run_db :=
  cbv beta iota zeta delta
    [Database.subtract_balance Database.add_balance Database.update_stats
     Database.claim_daily Database.can_claim_daily
     Database.get_user Database.with_lock Database.stat_ref Database.stat_set
     Database.update_biggest Database.user_update Database.user_ref
     Database._save_data bind gets modify ret raise
     Database.init Ledger.init_rlock Ledger.locked
     Database.set_lock Database.set_users Database.acquire Database.release
     Database.threading_Lock Database.threading_RLock
     Database.users Database._lock Database.reentrant Database.depth Nat.pred].

Section LedgerFacts.
Import Database Ledger Scenario.

Lemma get_user_touched (now uid : Z) (us : list (Z * user_data)) :
  dict_get uid (touched now uid us) = Some (account now uid us).
Proof. unfold touched, account. destruct (dict_get uid us); apply dict_get_set_eq. Qed.

(** [get_user] on its own takes the lock once and returns. *)
Lemma get_user_returns (now uid : Z) (us : list (Z * user_data)) :
  get_user now uid (init us) = Ret (account now uid us) (init (touched now uid us)).
Proof.
  run_db. unfold touched, account.
  destruct (dict_get uid us) eqn:Hg; run_db; rewrite ?Hg; run_db;
    rewrite dict_get_set_eq; done.
Qed.

Lemma update_stats_blocks (now uid : Z) (name : string) (value : Z)
    (us : list (Z * user_data)) :
  update_stats now uid name value (init us) = Blocked (locked us).
Proof. reflexivity. Qed.

(** Behind a re-entrant lock the credit adds the amount, whatever its sign. *)
Lemma add_balance_rlock (now uid amount : Z) (us : list (Z * user_data)) :
  add_balance now uid amount (init_rlock us) =
  Ret tt (init_rlock (dict_set uid (credited amount (account now uid us))
                               (touched now uid us))).
Proof.
  run_db. unfold touched, account.
  destruct (dict_get uid us) eqn:Hg; run_db; rewrite ?Hg; run_db;
    rewrite !dict_get_set_eq; run_db; rewrite ?dict_get_set_eq, ?dict_set_set; done.
Qed.

(** Behind a re-entrant lock the debit does what the specification says. *)
Lemma subtract_balance_rlock (now uid amount : Z) (us : list (Z * user_data)) :
  subtract_balance now uid amount (init_rlock us) =
  if Z.geb (balance (account now uid us)) amount
  then Ret true (init_rlock (dict_set uid (debited amount (account now uid us))
                                      (touched now uid us)))
  else Ret false (init_rlock (touched now uid us)).
Proof.
  run_db. unfold touched, account.
  destruct (dict_get uid us) eqn:Hg; run_db; rewrite ?Hg; run_db;
    rewrite !dict_get_set_eq; run_db.
  all: match goal with |- context [Z.geb ?a ?b] => destruct (Z.geb a b) end; run_db.
  all: rewrite ?dict_get_set_eq; run_db;
       rewrite ?dict_get_set_eq, ?dict_set_set; run_db; try done.
Qed.

Lemma debited_balance (amount : Z) (u : user_data) :
  balance (debited amount u) = balance u - amount /\
  total_bet (debited amount u) = total_bet u + amount.
Proof. done. Qed.

Lemma no_debt_set (us : list (Z * user_data)) (uid : Z) (u : user_data) :
  no_debt us -> 0 <= balance u -> no_debt (dict_set uid u us).
Proof.
  unfold no_debt. induction 1 as [|[k v] us Hv Hus IH]; intros Hu; simpl.
  - by repeat constructor.
  - destruct (uid =? k); constructor; auto.
Qed.

Lemma no_debt_get (us : list (Z * user_data)) (uid : Z) (u : user_data) :
  no_debt us -> dict_get uid us = Some u -> 0 <= balance u.
Proof.
  unfold no_debt. induction 1 as [|[k v] us Hv _ IH]; simpl; [done|].
  destruct (uid =? k); [by intros [= <-]|done].
Qed.

Lemma no_debt_account (now uid : Z) (us : list (Z * user_data)) :
  no_debt us -> 0 <= balance (account now uid us) /\ no_debt (touched now uid us).
Proof.
  intros Hus. unfold account, touched.
  destruct (dict_get uid us) as [u|] eqn:Hu.
  - pose proof (no_debt_get _ _ _ Hus Hu). split; [done|]. by apply no_debt_set.
  - split; [simpl; lia|]. apply no_debt_set; [done|simpl; lia].
Qed.

(** Behind a re-entrant lock the balances stay non-negative along every
    sequence of debits and non-negative credits: the property of the
    specification holds of the bodies of the two operations. *)
Lemma no_debt_rlock (now : Z) (os : list op) : forall us : list (Z * user_data),
  no_debt us -> Forall nonneg_credit os ->
  exists us', perform_all now os (init_rlock us) = init_rlock us' /\ no_debt us'.
Proof.
  induction os as [|o os IH]; intros us Hus Hos; [by exists us|].
  apply Forall_cons in Hos as [Ho Hos].
  destruct (no_debt_account now
              (match o with Debit uid _ | Credit uid _ => uid end) us Hus)
    as [Hacc Htouched].
  unfold perform_all. simpl. fold (perform_all now os).
  destruct o as [uid amount|uid amount]; simpl in *.
  - rewrite subtract_balance_rlock.
    destruct (Z.geb_spec (balance (account now uid us)) amount); simpl.
    + apply IH; [|done]. apply no_debt_set; [done|]. simpl. lia.
    + by apply IH.
  - rewrite add_balance_rlock. simpl.
    apply IH; [|done]. apply no_debt_set; [done|]. simpl. lia.
Qed.

(** C1.  On a database as [__init__] builds it, with any document, [Debit]
    never returns for any user and amount: [subtract_balance] takes
    [self._lock], a [threading.Lock], and calls [get_user], which waits for
    the same lock.  It answers neither true nor false and subtracts nothing;
    the user table at the moment it blocks is the table it started from. *)
Theorem debit_never_returns (now uid amount : Z) (us : list (Z * user_data)) :
  subtract_balance now uid amount (init us) = Blocked (locked us) /\
  returned (subtract_balance now uid amount (init us)) = None /\
  users (final_state (subtract_balance now uid amount (init us))) = us.
Proof. repeat split; reflexivity. Qed.

(** C10.  On a database as [__init__] builds it, [Credit] never returns for
    any amount, positive, zero or negative: [add_balance] takes [self._lock]
    and calls [get_user], which waits for the same lock, so nothing is added.
    Behind a re-entrant lock it would add the amount without looking at its
    sign. *)
Theorem credit_never_returns (now uid amount : Z) (us : list (Z * user_data)) :
  add_balance now uid amount (init us) = Blocked (locked us) /\
  add_balance now uid amount (init_rlock us) =
    Ret tt (init_rlock (dict_set uid (credited amount (account now uid us))
                                 (touched now uid us))).
Proof. split; [reflexivity|apply add_balance_rlock]. Qed.

Lemma can_claim_daily_returns (now uid : Z) (us : list (Z * user_data)) :
  can_claim_daily now uid (init us) =
  Ret (may_claim now (account now uid us)) (init (touched now uid us)).
Proof.
  unfold can_claim_daily, bind. rewrite get_user_returns. unfold may_claim.
  by destruct (last_daily (account now uid us)).
Qed.

Lemma claim_daily_blocks (now uid amount : Z) (us : list (Z * user_data))
    (u : user_data) :
  dict_get uid us = Some u ->
  claim_daily now uid amount (init us) =
  Blocked (locked (dict_set uid (set_last_daily (Some now) u) us)).
Proof. intros Hu. run_db. rewrite Hu. reflexivity. Qed.

(** Behind a re-entrant lock [claim_daily] stamps and credits, unchecked. *)
Lemma claim_daily_rlock (now uid amount : Z) (us : list (Z * user_data))
    (u : user_data) :
  dict_get uid us = Some u ->
  claim_daily now uid amount (init_rlock us) =
  Ret tt (init_rlock (dict_set uid
    (credited amount (set_last_played now (set_last_daily (Some now) u))) us)).
Proof.
  intros Hu. run_db. rewrite Hu. run_db.
  rewrite !dict_get_set_eq. run_db. rewrite ?dict_get_set_eq. run_db.
  rewrite ?dict_get_set_eq, ?dict_set_set. reflexivity.
Qed.

(** C3, as the code has it.  For an existing account, [CanClaimDaily] returns
    true exactly when [lastDailyClaim] is unset or at least 24 hours old, and
    [ClaimDaily] does not consult it: whatever [CanClaimDaily] would answer,
    the store in which [claim_daily] ends has [lastDailyClaim] set to now. *)
Theorem claim_daily_unchecked (now uid amount : Z) (us : list (Z * user_data))
    (u : user_data) :
  dict_get uid us = Some u ->
  returned (can_claim_daily now uid (init us)) = Some (may_claim now u) /\
  last_daily_of uid (final_state (claim_daily now uid amount (init us))) =
    Some (Some now).
Proof.
  intros Hu. split.
  - rewrite can_claim_daily_returns. simpl. unfold account. by rewrite Hu.
  - rewrite (claim_daily_blocks _ _ _ _ _ Hu). unfold last_daily_of. simpl.
    by rewrite dict_get_set_eq.
Qed.

Lemma claim_daily_unchecked_witness :
  returned (can_claim_daily one_hour 1 (init claimed_at_0)) = Some false /\
  last_daily_of 1 (final_state (claim_daily one_hour 1 1000 (init claimed_at_0))) =
    Some (Some one_hour).
Proof.
  apply (claim_daily_unchecked one_hour 1 1000 claimed_at_0
           (set_last_daily (Some 0) (new_user 0))).
  reflexivity.
Defined.

(** C3, as stated, fails.  One hour after a claim [CanClaimDaily] is false,
    yet a second [ClaimDaily] does not fail leaving the account alone: it
    moves [lastDailyClaim] to the new time and then waits for the lock it
    holds, the credit not made.  Behind a re-entrant lock the second call
    returns and credits the bonus again. *)
Lemma claim_daily_second_call :
  returned (can_claim_daily one_hour 1 (init claimed_at_0)) = Some false /\
  returned (claim_daily one_hour 1 1000 (init claimed_at_0)) = None /\
  last_daily_of 1 (init claimed_at_0) = Some (Some 0) /\
  last_daily_of 1 (final_state (claim_daily one_hour 1 1000 (init claimed_at_0))) =
    Some (Some one_hour) /\
  balance_in 1 (final_state (claim_daily one_hour 1 1000 (init claimed_at_0))) =
    Some 10000 /\
  balance_in 1 (final_state (claim_daily one_hour 1 1000 (init_rlock claimed_at_0))) =
    Some 11000.
Proof. repeat split; vm_compute; reflexivity. Qed.

End LedgerFacts.

(** ** Leaderboard and rank (C9) *)

Section Leaderboard.
Import Database Ledger Scenario.

Lemma insert_desc_perm (x : entry) (s : list entry) : insert_desc x s ≡ₚ x :: s.
Proof.
  induction s as [|y s IH]; simpl; [done|].
  destruct (e_balance x <? e_balance y); [|done].
  rewrite IH. apply perm_swap.
Qed.

Lemma sort_desc_perm (l : list entry) : sort_desc l ≡ₚ l.
Proof.
  induction l as [|x l IH]; simpl; [done|].
  rewrite insert_desc_perm. by rewrite IH.
Qed.

Lemma insert_desc_sorted (x : entry) (s : list entry) :
  StronglySorted desc s -> StronglySorted desc (insert_desc x s).
Proof.
  induction 1 as [|y s Hs IH Hall]; simpl.
  - by repeat constructor.
  - destruct (Z.ltb_spec (e_balance x) (e_balance y)) as [Hlt|Hge].
    + constructor; [done|]. rewrite insert_desc_perm.
      constructor; [unfold desc; lia|done].
    + constructor; [by constructor|]. constructor; [done|].
      eapply Forall_impl; [exact Hall|]. unfold desc. intros z Hz. lia.
Qed.

(** The leaderboard is in order of non-increasing balance. *)
Lemma sort_desc_sorted (l : list entry) : StronglySorted desc (sort_desc l).
Proof. induction l; simpl; [constructor|by apply insert_desc_sorted]. Qed.

Lemma count_rows_perm (p : entry -> bool) (l1 l2 : list entry) :
  l1 ≡ₚ l2 -> count_rows p l1 = count_rows p l2.
Proof.
  induction 1 as [|x l1 l2 _ IH|x y l|l1 l2 l3 _ IH1 _ IH2]; simpl; try congruence.
  - by destruct (p x); rewrite IH.
  - by destruct (p x), (p y).
Qed.

Lemma count_rows_none (p : entry -> bool) (l : list entry) :
  Forall (fun e => p e = false) l -> count_rows p l = O.
Proof. induction 1 as [|e l He _ IH]; simpl; [done|]. by rewrite He. Qed.

Lemma rank_scan_shift (uid i : Z) (l : list entry) :
  rank_scan uid i l = (fun r => r + i) <$> rank_scan uid 0 l.
Proof.
  revert i. induction l as [|e l IH]; intros i; simpl; [done|].
  destruct (e_user_id e =? uid); simpl; [f_equal; lia|].
  rewrite (IH (i + 1)), (IH (0 + 1)).
  destruct (rank_scan uid 0 l); simpl; [f_equal; lia|done].
Qed.

Lemma rank_scan_bounds (uid i r : Z) (l : list entry) :
  rank_scan uid i l = Some r -> i < r <= i + Z.of_nat (length l).
Proof.
  revert i. induction l as [|e l IH]; intros i; simpl; [done|].
  destruct (e_user_id e =? uid).
  - intros [= <-]. lia.
  - intros H%IH. lia.
Qed.

Lemma rank_scan_found (uid i r : Z) (l : list entry) :
  rank_scan uid i l = Some r -> exists e, e ∈ l /\ e_user_id e = uid.
Proof.
  revert i. induction l as [|z l IH]; simpl; [done|].
  intros i. destruct (Z.eqb_spec (e_user_id z) uid).
  - intros _. exists z. split; [by left|done].
  - intros (e & He & Hid)%IH. exists e. split; [by right|done].
Qed.

(** Cutting the board to [n] rows loses the rows past the [n]-th. *)
Lemma rank_scan_take (uid i : Z) (n : nat) (l : list entry) :
  rank_scan uid i (take n l) =
  match rank_scan uid i l with
  | Some r => if r <=? i + Z.of_nat n then Some r else None
  | None => None
  end.
Proof.
  revert i n. induction l as [|e l IH]; intros i n.
  - by destruct n.
  - destruct n as [|n]; simpl.
    + destruct (e_user_id e =? uid).
      * destruct (Z.leb_spec (i + 1) (i + Z.of_nat 0)); [lia|done].
      * destruct (rank_scan uid (i + 1) l) as [r|] eqn:Hr; [|done].
        apply rank_scan_bounds in Hr.
        destruct (Z.leb_spec r (i + Z.of_nat 0)); [lia|done].
    + destruct (e_user_id e =? uid).
      * destruct (Z.leb_spec (i + 1) (i + Z.of_nat (S n))); [done|lia].
      * rewrite IH. destruct (rank_scan uid (i + 1) l) as [r|]; [|done].
        replace (i + 1 + Z.of_nat n) with (i + Z.of_nat (S n)) by lia. done.
Qed.

(** A new row lands behind exactly the rows with a greater balance. *)
Lemma insert_desc_scan_self (x : entry) (s : list entry) :
  StronglySorted desc s ->
  Forall (fun e => e_user_id e <> e_user_id x) s ->
  rank_scan (e_user_id x) 0 (insert_desc x s) =
  Some (1 + Z.of_nat (count_rows (fun e => e_balance x <? e_balance e) s)).
Proof.
  induction 1 as [|y s Hs IH Hall]; intros Hfresh; simpl.
  - by rewrite Z.eqb_refl.
  - apply Forall_cons in Hfresh as [Hy Hfresh].
    destruct (Z.ltb_spec (e_balance x) (e_balance y)) as [Hlt|Hge]; simpl.
    + destruct (Z.eqb_spec (e_user_id y) (e_user_id x)); [done|].
      rewrite rank_scan_shift, IH by done. simpl. f_equal. lia.
    + rewrite Z.eqb_refl. rewrite count_rows_none; [done|].
      eapply Forall_impl; [exact Hall|]. unfold desc. intros z Hz.
      apply Z.ltb_ge. lia.
Qed.

(** A new row pushes down the rows whose balance is not greater than its own. *)
Lemma insert_desc_scan_other (x : entry) (uid b : Z) (s : list entry) :
  StronglySorted desc s ->
  e_user_id x <> uid ->
  owns uid b s ->
  rank_scan uid 0 (insert_desc x s) =
  (fun r => r + (if e_balance x <? b then 0 else 1)) <$> rank_scan uid 0 s.
Proof.
  induction 1 as [|y s Hs IH Hall]; intros Hx Hown; simpl.
  - by destruct (Z.eqb_spec (e_user_id x) uid).
  - apply Forall_cons in Hown as [Hy Hown].
    destruct (Z.ltb_spec (e_balance x) (e_balance y)) as [Hlt|Hge]; simpl.
    + destruct (Z.eqb_spec (e_user_id y) uid) as [Heq|Hne]; simpl.
      * rewrite <- (Hy Heq).
        destruct (Z.ltb_spec (e_balance x) (e_balance y)); [done|lia].
      * rewrite rank_scan_shift, IH by done. rewrite (rank_scan_shift uid (0 + 1)).
        destruct (rank_scan uid 0 s); simpl; [f_equal; lia|done].
    + destruct (Z.eqb_spec (e_user_id x) uid); [done|].
      assert (Hb : forall e, e ∈ y :: s -> e_user_id e = uid ->
                             (e_balance x <? b) = false).
      { intros e He Hid. apply Z.ltb_ge.
        apply elem_of_cons in He as [->|He]; [rewrite <- (Hy Hid); lia|].
        rewrite Forall_forall in Hown, Hall. rewrite <- (Hown e He Hid).
        specialize (Hall e He). unfold desc in Hall. lia. }
      destruct (Z.eqb_spec (e_user_id y) uid) as [Heq|Hne]; simpl.
      * rewrite (Hb y); [done|by left|done].
      * rewrite (rank_scan_shift uid (0 + 1 + 1)), (rank_scan_shift uid (0 + 1)).
        destruct (rank_scan uid 0 s) as [r|] eqn:Hr; simpl; [|done].
        destruct (rank_scan_found _ _ _ _ Hr) as (e & He & Hid).
        rewrite (Hb e); [f_equal; lia|by right|done].
Qed.

Lemma row_of_owns (uid : Z) (me : entry) (l : list entry) :
  NoDup (map e_user_id l) -> row_of uid l = Some me -> owns uid (e_balance me) l.
Proof.
  induction l as [|e l IH]; simpl; [constructor|].
  intros [Hnotin Hnd]%NoDup_cons.
  destruct (Z.eqb_spec (e_user_id e) uid) as [Heq|Hne].
  - intros [= ->]. constructor; [done|].
    apply Forall_forall. intros z Hz Hid. exfalso. apply Hnotin.
    rewrite Heq, <- Hid. apply elem_of_map. eauto.
  - intros Hrow. constructor; [done|by apply IH].
Qed.

Lemma row_of_absent (uid : Z) (l : list entry) :
  row_of uid l = None -> Forall (fun e => e_user_id e <> uid) l.
Proof.
  induction l as [|z l IH]; simpl; [constructor|].
  destruct (Z.eqb_spec (e_user_id z) uid); [done|].
  intros Hrow. constructor; [done|by apply IH].
Qed.

(** Scanning the sorted board finds a user at the position of the
    specification. *)
Lemma rank_scan_sort_desc (uid : Z) (l : list entry) :
  NoDup (map e_user_id l) ->
  rank_scan uid 0 (sort_desc l) = position uid l.
Proof.
  induction l as [|x l IH]; [done|].
  intros [Hnotin Hnd]%NoDup_cons. specialize (IH Hnd).
  unfold position in *. simpl.
  destruct (Z.eqb_spec (e_user_id x) uid) as [Heq|Hne].
  - subst uid. rewrite insert_desc_scan_self.
    + rewrite (count_rows_perm _ _ _ (sort_desc_perm l)). rewrite Z.ltb_irrefl. simpl.
      f_equal. lia.
    + apply sort_desc_sorted.
    + apply Forall_forall. intros e He Hid. apply Hnotin. rewrite <- Hid.
      apply elem_of_map. exists e. split; [done|].
      by rewrite <- (sort_desc_perm l).
  - destruct (row_of uid l) as [me|] eqn:Hrow.
    + rewrite (insert_desc_scan_other x uid (e_balance me)).
      * rewrite IH. simpl. f_equal.
        destruct (Z.ltb_spec (e_balance x) (e_balance me)),
                 (Z.ltb_spec (e_balance me) (e_balance x)),
                 (Z.eqb_spec (e_balance x) (e_balance me)); simpl; lia.
      * apply sort_desc_sorted.
      * done.
      * unfold owns. rewrite (sort_desc_perm l). by apply row_of_owns.
    + rewrite (insert_desc_scan_other x uid 0).
      * by rewrite IH.
      * apply sort_desc_sorted.
      * done.
      * unfold owns. rewrite (sort_desc_perm l).
        eapply Forall_impl; [by apply row_of_absent|]. simpl. intros e Hne' Hid. done.
Qed.

Lemma entry_keys (us : list (Z * user_data)) :
  map e_user_id (map entry_of us) = map fst us.
Proof. induction us as [|[k u] us IH]; simpl; [done|by rewrite IH]. Qed.

(** C9, as the code has it.  In a store whose keys are distinct, for a user
    with an account whose position in the full ordering (balance descending,
    ties in insertion order) is [r]: [get_user_rank] returns [r] when [r] is
    at most 1000, and 1001 otherwise, because it searches the first 1000 rows
    of the leaderboard only. *)
Theorem get_user_rank_within_1000 (db : t) (uid r : Z) :
  NoDup (map fst (users db)) ->
  rank uid db = Some r ->
  get_user_rank uid db = if r <=? 1000 then r else 1001.
Proof.
  intros Hnd Hr. unfold rank in Hr. unfold get_user_rank, get_leaderboard.
  set (l := map entry_of (users db)) in *.
  assert (Hscan : rank_scan uid 0 (sort_desc l) = Some r).
  { rewrite rank_scan_sort_desc; [done|]. unfold l. by rewrite entry_keys. }
  rewrite rank_scan_take, Hscan.
  change (0 + Z.of_nat 1000) with 1000.
  destruct (Z.leb_spec r 1000) as [Hle|Hgt]; [done|].
  apply rank_scan_bounds in Hscan. rewrite length_take. lia.
Qed.

Lemma get_user_rank_within_1000_witness :
  get_user_rank 1 (init two_accounts) = 2.
Proof.
  apply (get_user_rank_within_1000 (init two_accounts) 1 2).
  - apply (bool_decide_unpack _). vm_compute. exact I.
  - reflexivity.
Defined.

(** C9, as stated, fails.  Among 1002 accounts with equal balances, inserted
    in the order 1, ..., 1002, the account 1002 is at position 1002 of the
    full ordering, and [get_user_rank] returns 1001. *)
Lemma rank_beyond_the_board :
  NoDup (map fst (users (init (crowd 1002)))) /\
  rank 1002 (init (crowd 1002)) = Some 1002 /\
  get_user_rank 1002 (init (crowd 1002)) = 1001.
Proof.
  split; [|split].
  - apply (bool_decide_unpack _). vm_compute. exact I.
  - vm_compute. reflexivity.
  - vm_compute. reflexivity.
Qed.

End Leaderboard.

(** ** The cleanup sweep of the rate limiter (C8) *)

Section Sweep.
Import RateLimiter Allow Scenario.

Lemma Qltb_true (a b : Q) : Qltb a b = true <-> (a < b)%Q.
Proof. unfold Qltb. destruct (Qlt_le_dec a b); split; try done. intros. lra. Qed.

Lemma Qltb_false (a b : Q) : Qltb a b = false <-> (b <= a)%Q.
Proof. unfold Qltb. destruct (Qlt_le_dec a b); split; try done. intros. lra. Qed.

Lemma touch_lookup (user_id : Z) (m : gmap Z (gmap string Q)) :
  default ∅ (touch user_id m !! user_id) = default ∅ (m !! user_id).
Proof.
  unfold touch. destruct (m !! user_id) eqn:Hm; [by rewrite Hm|].
  by rewrite lookup_insert_eq.
Qed.

(** The answer of [check_rate_limit] depends on the cooldown of the action
    and on the recorded time only. *)
Lemma check_rate_limit_allows (current_time : Q) (user_id : Z) (action : string)
    (rl : t) :
  fst (check_rate_limit current_time user_id action rl) =
  match cooldowns rl !! action, recorded user_id action rl with
  | Some cooldown, Some last => negb (Qltb (current_time - last) (inject_Z cooldown))
  | _, _ => true
  end.
Proof.
  unfold check_rate_limit, recorded.
  destruct (cooldowns rl !! action) as [cd|]; [|done].
  simpl. rewrite touch_lookup.
  destruct (default ∅ (user_cooldowns rl !! user_id) !! action) as [last|]; [|done].
  by destruct (Qltb _ _).
Qed.

(** A denied call records nothing. *)
Lemma check_rate_limit_denied (current_time : Q) (user_id : Z) (action : string)
    (rl : t) :
  fst (check_rate_limit current_time user_id action rl) = false ->
  recorded user_id action (snd (check_rate_limit current_time user_id action rl)) =
  recorded user_id action rl.
Proof.
  unfold check_rate_limit, recorded.
  destruct (cooldowns rl !! action) as [cd|]; [|done].
  simpl. rewrite touch_lookup.
  destruct (default ∅ (user_cooldowns rl !! user_id) !! action) as [last|] eqn:Hl;
    [|done].
  destruct (Qltb _ _); [|done]. intros _. simpl. by rewrite touch_lookup.
Qed.

Lemma cleanup_cooldowns (current_time : Q) (max_age_hours : Z) (rl : t) :
  cooldowns (cleanup_old_entries current_time max_age_hours rl) = cooldowns rl.
Proof. done. Qed.

(** The sweep drops a recorded time exactly when it is older than the
    horizon. *)
Lemma cleanup_recorded (current_time : Q) (max_age_hours : Z) (user_id : Z)
    (action : string) (rl : t) :
  recorded user_id action (cleanup_old_entries current_time max_age_hours rl) =
  match recorded user_id action rl with
  | Some last =>
      if expired current_time (max_age_hours * 3600) last then None else Some last
  | None => None
  end.
Proof.
  unfold recorded, cleanup_old_entries. simpl. rewrite lookup_omap.
  destruct (user_cooldowns rl !! user_id) as [mine|]; simpl; [|by rewrite lookup_empty].
  unfold sweep_user.
  set (kept := filter _ mine).
  assert (Hkept : kept !! action =
    match mine !! action with
    | Some last =>
        if expired current_time (max_age_hours * 3600) last then None else Some last
    | None => None
    end).
  { unfold kept. rewrite map_lookup_filter.
    destruct (mine !! action) as [last|]; simpl; [|done].
    destruct (expired _ _ last); by case_guard. }
  destruct (decide (kept = ∅)) as [Hempty|_]; simpl; [|done].
  rewrite <- Hkept, Hempty. done.
Qed.

(** C8, as the code has it.  For every limiter state, every user and every
    action kind whose cooldown is not longer than the eviction horizon
    ([cooldown <= max_age_hours * 3600], as with the default horizon of 24
    hours and the default cooldowns), the sweep does not change the answer of
    any later [Allow] call. *)
Theorem sweep_keeps_allow (rl : t) (max_age_hours : Z) (sweep_time later : Q)
    (user_id : Z) (action : string) (cooldown : Z) :
  cooldowns rl !! action = Some cooldown ->
  cooldown <= max_age_hours * 3600 ->
  (sweep_time <= later)%Q ->
  fst (check_rate_limit later user_id action
         (cleanup_old_entries sweep_time max_age_hours rl)) =
  fst (check_rate_limit later user_id action rl).
Proof.
  intros Hcd Hhorizon Hlater.
  rewrite !check_rate_limit_allows, cleanup_cooldowns, Hcd, cleanup_recorded.
  destruct (recorded user_id action rl) as [last|]; [|done].
  destruct (expired sweep_time (max_age_hours * 3600) last) eqn:Hexp; [|done].
  apply Qltb_true in Hexp. symmetry. apply negb_true_iff, Qltb_false.
  rewrite Zle_Qle in Hhorizon. lra.
Qed.

Lemma sweep_keeps_allow_witness :
  fst (check_rate_limit 5000 7 "daily" (cleanup_old_entries 4000 24 claimed_once)) =
  fst (check_rate_limit 5000 7 "daily" claimed_once).
Proof.
  apply (sweep_keeps_allow claimed_once 24 4000 5000 7 "daily" 86400).
  - reflexivity.
  - lia.
  - unfold Qle. simpl. lia.
Defined.

(** C8, as stated, fails.  User 7 was allowed a "daily" action at time 0; the
    cooldown is 86400 seconds.  A sweep at time 4000 with a horizon of one
    hour evicts the entry, and the call at time 5000, which is denied without
    the sweep, is allowed after it. *)
Lemma sweep_allows_early :
  cooldowns claimed_once !! "daily" = Some 86400 /\
  recorded 7 "daily" claimed_once = Some 0%Q /\
  (4000 <= 5000)%Q /\
  (5000 - 0 < inject_Z 86400)%Q /\
  fst (check_rate_limit 5000 7 "daily" claimed_once) = false /\
  fst (check_rate_limit 5000 7 "daily" (cleanup_old_entries 4000 1 claimed_once)) = true.
Proof. repeat split; vm_compute; done. Qed.

End Sweep.

(** ** Sessions (C2, C4, C7) *)

Section Sessions.
Import BlackjackGame SessionEngine Scenario Cards.

Lemma on_db_table {X} (m : M Database.t X) (s s' : t) (x : X) :
  on_db m s = Ret x s' -> active_games s' = active_games s.
Proof. unfold on_db. destruct (m (db s)); intros [= _ <-]; done. Qed.

Lemma update_game_Ret (gid : string) (g : game) (s s' : t) (u : unit) :
  update_game gid g s = Ret u s' ->
  active_games s' =
    match active_games s !! gid with
    | Some _ => <[gid := g]> (active_games s)
    | None => active_games s
    end.
Proof. intros [= _ <-]. done. Qed.

(** When [_finish_game] returns, the session is out of the table. *)
Lemma finish_game_Ret (now : Z) (gid : string) (s s' : t) (u : unit) :
  _finish_game now gid s = Ret u s' ->
  active_games s' = delete gid (active_games s).
Proof.
  unfold _finish_game. intros (found & s1 & [= <- <-] & Hk)%bind_Ret.
  destruct (active_games s !! gid) as [g|] eqn:Hg.
  - apply bind_Ret in Hk as (u1 & s2 & Hstats & [= _ <-]). simpl. f_equal.
    destruct (is_win (game_result g)).
    + apply bind_Ret in Hstats as (u2 & s3 & H1%on_db_table & H2%on_db_table).
      congruence.
    + destruct (is_loss (game_result g)).
      * by apply on_db_table in Hstats.
      * by injection Hstats as _ <-.
  - injection Hk as _ <-. symmetry. by apply delete_id.
Qed.

Lemma pop_Ret (pile : list card) (s s' : t) (c : card) (rest : list card) :
  pop pile s = Ret (c, rest) s' -> pile = c :: rest /\ s' = s.
Proof. destruct pile; [done|]. by intros [= -> -> ->]. Qed.

Lemma all_playing_delete (gid : string) (tbl : gmap string game) (s' : t) :
  (forall k g, k <> gid -> tbl !! k = Some g -> game_state g = playing) ->
  active_games s' = delete gid tbl -> all_playing s'.
Proof.
  intros Hothers Heq k g. rewrite Heq. intros [Hne Hk]%lookup_delete_Some. eauto.
Qed.

Lemma hit_not_found (now : Z) (gid : string) (s : t) :
  active_games s !! gid = None -> hit now gid s = Ret not_found s.
Proof. intros Hnone. unfold hit, bind, gets. by rewrite Hnone. Qed.

Lemma stand_not_found (now : Z) (gid : string) (s : t) :
  active_games s !! gid = None -> stand now gid s = Ret not_found s.
Proof. intros Hnone. unfold stand, bind, gets. by rewrite Hnone. Qed.

Lemma hit_Ret (now : Z) (gid : string) (s s' : t) (r : reply) :
  all_playing s -> hit now gid s = Ret r s' ->
  all_playing s' /\
  (forall p, r = shown p -> p_game_state p = finished ->
             active_games s' !! gid = None).
Proof.
  intros Hinv. unfold hit. intros (found & s_0 & [= <- <-] & Hk)%bind_Ret.
  destruct (active_games s !! gid) as [g|] eqn:Hg.
  2:{ injection Hk as <- <-. split; [done|]. by intros p [=]. }
  apply bind_Ret in Hk as ([c rest] & s1 & [Hdeck ->]%pop_Ret & Hk).
  apply bind_Ret in Hk as (u & s2 & Hup1%update_game_Ret & Hk).
  rewrite Hg in Hup1.
  destruct (Z.gtb _ 21).
  - apply bind_Ret in Hk as (u2 & s3 & Hup2%update_game_Ret & Hk).
    rewrite Hup1, lookup_insert_eq in Hup2.
    apply bind_Ret in Hk as (u3 & s4 & Hfin%finish_game_Ret & [= <- <-]).
    split.
    + eapply all_playing_delete; [|exact Hfin].
      intros k g' Hne. rewrite Hup2, !lookup_insert_ne by done. apply Hinv.
    + intros _ _ _. rewrite Hfin. apply lookup_delete_eq.
  - injection Hk as <- <-. split.
    + intros k g'. rewrite Hup1. destruct (decide (gid = k)) as [<-|Hne].
      * rewrite lookup_insert_eq. intros [= <-]. simpl. by apply (Hinv gid).
      * rewrite lookup_insert_ne by done. apply Hinv.
    + intros p [= <-]. simpl. rewrite (Hinv gid g Hg). done.
Qed.

Lemma stand_Ret (now : Z) (gid : string) (s s' : t) (r : reply) :
  all_playing s -> stand now gid s = Ret r s' ->
  all_playing s' /\
  (forall p, r = shown p -> p_game_state p = finished ->
             active_games s' !! gid = None).
Proof.
  intros Hinv. unfold stand. intros (found & s_0 & [= <- <-] & Hk)%bind_Ret.
  destruct (active_games s !! gid) as [g|] eqn:Hg.
  2:{ injection Hk as <- <-. split; [done|]. by intros p [=]. }
  destruct (dealer_turn (deck g) (dealer_hand g)) as [[rest dealer] exhausted].
  apply bind_Ret in Hk as (u & s1 & Hup1%update_game_Ret & Hk).
  rewrite Hg in Hup1.
  destruct exhausted; [done|].
  apply bind_Ret in Hk as (g2 & s2 & Hpay & Hk).
  assert (Htbl2 : active_games s2 = active_games s1).
  { repeat match type of Hpay with
           | (if ?b then _ else _) _ = _ => destruct b
           end;
    try (apply bind_Ret in Hpay as (? & ? & Hdb%on_db_table & [= _ <-]); done).
    by injection Hpay as _ <-. }
  apply bind_Ret in Hk as (u2 & s3 & Hup2%update_game_Ret & Hk).
  rewrite Htbl2, Hup1, lookup_insert_eq in Hup2.
  apply bind_Ret in Hk as (u3 & s4 & Hup3%update_game_Ret & Hk).
  rewrite Hup2, lookup_insert_eq in Hup3.
  apply bind_Ret in Hk as (u4 & s5 & Hfin%finish_game_Ret & [= <- <-]).
  split.
  - eapply all_playing_delete; [|exact Hfin].
    intros k g' Hne. rewrite Hup3, !lookup_insert_ne by done. apply Hinv.
  - intros _ _ _. rewrite Hfin. apply lookup_delete_eq.
Qed.

Lemma play_Ret (now : Z) (fresh_id : string) (shuffled : list card) (uid stake : Z)
    (s s' : t) (r : reply) :
  all_playing s -> play now fresh_id shuffled uid stake s = Ret r s' ->
  all_playing s' /\
  (forall p, r = shown p -> p_game_state p = finished ->
             active_games s' = active_games s).
Proof.
  intros Hinv. unfold play.
  intros (ok & s1 & Hdebit%on_db_table & Hk)%bind_Ret.
  apply bind_Ret in Hk as ([p1 deck1] & ? & [_ ->]%pop_Ret & Hk).
  apply bind_Ret in Hk as ([p2 deck2] & ? & [_ ->]%pop_Ret & Hk).
  apply bind_Ret in Hk as ([d1 deck3] & ? & [_ ->]%pop_Ret & Hk).
  apply bind_Ret in Hk as ([d2 deck4] & ? & [_ ->]%pop_Ret & Hk).
  apply bind_Ret in Hk as (g & s2 & Hnat & Hk).
  apply bind_Ret in Hk as (u & s3 & Hreg & Hk).
  apply bind_Ret in Hk as (u2 & s4 & Hstats%on_db_table & [= <- <-]).
  set (g0 := {| game_id := fresh_id |}) in *.
  assert (Hg : active_games s2 = active_games s /\
               (game_state g = playing -> g = g0)).
  { rewrite <- Hdebit.
    repeat match type of Hnat with
           | (if ?b then _ else _) _ = _ => destruct b
           end;
    try (apply bind_Ret in Hnat as (? & ? & Hdb%on_db_table & [= <- <-]); done).
    - by injection Hnat as <- <-.
    - by injection Hnat as <- <-. }
  destruct Hg as [Htbl2 Hg0].
  destruct (game_state g) eqn:Hphase.
  - injection Hreg as _ <-. simpl in Hstats. split.
    + intros k g'. rewrite Hstats, Htbl2. destruct (decide (fresh_id = k)) as [<-|Hne].
      * rewrite lookup_insert_eq. by intros [= <-].
      * rewrite lookup_insert_ne by done. apply Hinv.
    + intros p [= <-]. simpl. by rewrite Hphase.
  - injection Hreg as _ <-. split.
    + intros k g'. rewrite Hstats, Htbl2. apply Hinv.
    + intros _ _ _. by rewrite Hstats, Htbl2.
Qed.

(** The part of the invariant that holds.  From a table that holds no
    finished session: [Hit] and [Stand] addressed to an identifier that is not
    in the table return the session-not-found reply and leave the ledger and
    the table as they were; and after an operation that returns, the table
    again holds no finished session.  The statement is silent about the
    operations that do not return. *)
Theorem finished_sessions_leave_the_table (now : Z) (op : operation) (s : t) :
  all_playing s ->
  (forall gid, addressed op = Some gid -> active_games s !! gid = None ->
     run now op s = Ret not_found s) /\
  (forall r s', run now op s = Ret r s' ->
     all_playing s' /\
     (forall p, r = shown p -> p_game_state p = finished ->
        match addressed op with
        | Some gid => active_games s' !! gid = None
        | None => active_games s' = active_games s
        end)).
Proof.
  intros Hinv. split.
  - intros gid Haddr Hnone. destruct op as [| |]; simplify_eq/=.
    + by apply hit_not_found.
    + by apply stand_not_found.
  - intros r s' Hrun. destruct op as [fresh_id shuffled uid stake|gid|gid]; simpl in *.
    + by eapply play_Ret.
    + by eapply hit_Ret.
    + by eapply stand_Ret.
Qed.

Lemma one_round_all_playing : all_playing one_round.
Proof.
  intros gid g. unfold one_round. simpl.
  intros [_ <-]%lookup_singleton_Some. reflexivity.
Qed.

Lemma finished_sessions_leave_the_table_witness :
  all_playing one_round /\
  (forall gid, addressed (Hit "g1") = Some gid -> active_games one_round !! gid = None ->
     run 0 (Hit "g1") one_round = Ret not_found one_round) /\
  (forall r s', run 0 (Hit "g1") one_round = Ret r s' ->
     all_playing s' /\
     (forall p, r = shown p -> p_game_state p = finished ->
        match addressed (Hit "g1") with
        | Some gid => active_games s' !! gid = None
        | None => active_games s' = active_games one_round
        end)).
Proof.
  split; [exact one_round_all_playing|].
  apply (finished_sessions_leave_the_table 0 (Hit "g1") one_round).
  exact one_round_all_playing.
Defined.

(** The hit of the witness does return: the player draws a 2 and holds 17. *)
Example hit_one_round_returns :
  (fun r => match r with
            | Some (shown p) => Some (p_player_value p, p_game_state p)
            | _ => None
            end) (returned (hit 0 "g1" one_round)) = Some (17, playing).
Proof. vm_compute. reflexivity. Qed.

(** With the lock as [__init__] creates it, a bust does not return: the round
    is marked finished and the call waits inside [update_stats]. *)
Example hit_bust_blocks :
  let s := {| db := Database.init [];
              active_games := {[ "g1" := set_deck [king_s] round ]} |} in
  returned (hit 0 "g1" s) = None /\
  game_state <$> (active_games (final_state (hit 0 "g1" s)) !! "g1") = Some finished.
Proof. split; vm_compute; reflexivity. Qed.



Lemma play_returns_shown (now : Z) (fresh_id : string) (shuffled : list card)
    (uid stake : Z) (s s' : t) (r : reply) :
  play now fresh_id shuffled uid stake s = Ret r s' -> exists p, r = shown p.
Proof.
  unfold play.
  intros (ok & s1 & _ & Hk)%bind_Ret.
  apply bind_Ret in Hk as ([p1 deck1] & ? & _ & Hk).
  apply bind_Ret in Hk as ([p2 deck2] & ? & _ & Hk).
  apply bind_Ret in Hk as ([d1 deck3] & ? & _ & Hk).
  apply bind_Ret in Hk as ([d2 deck4] & ? & _ & Hk).
  apply bind_Ret in Hk as (g & s2 & _ & Hk).
  apply bind_Ret in Hk as (u & s3 & _ & Hk).
  apply bind_Ret in Hk as (u2 & s4 & _ & [= <- _]).
  unfold _format_game_result. eauto.
Qed.


(** On a database as [__init__] builds it, [play] stops at its first line. *)
Lemma play_blocks (now : Z) (fresh_id : string) (shuffled : list card)
    (uid stake : Z) (us : list (Z * Database.user_data)) (tbl : gmap string game) :
  play now fresh_id shuffled uid stake
       {| db := Database.init us; active_games := tbl |} =
  Blocked {| db := Ledger.locked us; active_games := tbl |}.
Proof. reflexivity. Qed.

(** The insufficient-funds check that the bot has is the command handler's:
    when the rate limiter lets the command through, the stake is within
    10..10000 and the balance is below the stake, [blackjack_command] reports
    the insufficient balance without calling [Debit] or [Start]; the session
    table and the balance are as before.  [Start] itself has no error reply:
    whenever it returns, it returns a round. *)
Theorem insufficient_funds_stop_at_the_command
    (current_time : Q) (now : Z) (fresh_id : string) (shuffled : list card)
    (uid stake : Z) (rl : RateLimiter.t) (us : list (Z * Database.user_data))
    (tbl : gmap string game) :
  fst (RateLimiter.check_rate_limit current_time uid "game" rl) = true ->
  10 <= stake <= 10000 ->
  Database.balance (Ledger.account now uid us) < stake ->
  CasinoBot.blackjack_command current_time now fresh_id shuffled uid stake
      (bot_with rl us tbl) =
    Ret (CasinoBot.insufficient_balance (Database.balance (Ledger.account now uid us)))
        (bot_with (snd (RateLimiter.check_rate_limit current_time uid "game" rl))
                  (Ledger.touched now uid us) tbl) /\
  dict_get uid (Ledger.touched now uid us) = Some (Ledger.account now uid us) /\
  (forall s r s', play now fresh_id shuffled uid stake s = Ret r s' ->
                  exists p, r = shown p).
Proof.
  intros Hrate [Hmin Hmax] Hpoor. split; [|split].
  - unfold CasinoBot.blackjack_command, bind, CasinoBot.rate_check, bot_with. simpl.
    destruct (RateLimiter.check_rate_limit current_time uid "game" rl) as [ok rl'].
    simpl in *. subst ok. simpl.
    destruct (Z.ltb_spec stake 10); [lia|].
    destruct (Z.gtb_spec stake 10000); [lia|].
    unfold CasinoBot.on_game, on_db. simpl. rewrite get_user_returns.
    destruct (Z.ltb_spec (Database.balance (Ledger.account now uid us)) stake);
      [done|lia].
  - apply get_user_touched.
  - intros s r s'. apply play_returns_shown.
Qed.

Lemma insufficient_funds_stop_at_the_command_witness :
  CasinoBot.blackjack_command 0 0 "g1" plain_pile 1 500
      (bot_with RateLimiter.init poor ∅) =
    Ret (CasinoBot.insufficient_balance 100)
        (bot_with (snd (RateLimiter.check_rate_limit 0 1 "game" RateLimiter.init))
                  (Ledger.touched 0 1 poor) ∅) /\
  dict_get 1 (Ledger.touched 0 1 poor) = Some (Ledger.account 0 1 poor) /\
  (forall s r s', play 0 "g1" plain_pile 1 500 s = Ret r s' -> exists p, r = shown p).
Proof.
  apply (insufficient_funds_stop_at_the_command
           0 0 "g1" plain_pile 1 500 RateLimiter.init poor ∅).
  - reflexivity.
  - lia.
  - reflexivity.
Defined.

(** With 100 coins and a stake of 500 the [Debit] cannot succeed, and [play]
    reports nothing: it waits for the lock inside [Debit].  Behind a
    re-entrant lock the [Debit] would return false and [play] would go on:
    the round is registered, and a natural blackjack is paid 1250 on a stake
    that was never taken. *)
Lemma start_proceeds_without_funds :
  balance_of 1 (fresh_table (Database.init poor)) = Some 100 /\
  returned (play 0 "g1" plain_pile 1 500 (fresh_table (Database.init poor))) = None /\
  returned (Database.subtract_balance 0 1 500 (Ledger.init_rlock poor)) = Some false /\
  game_state <$> (active_games (final_state
      (play 0 "g1" plain_pile 1 500 (fresh_table (Ledger.init_rlock poor)))) !! "g1") =
    Some playing /\
  balance_of 1 (final_state
      (play 0 "g1" natural_pile 1 500 (fresh_table (Ledger.init_rlock poor)))) =
    Some 1350.
Proof. repeat split; vm_compute; reflexivity. Qed.

(** C4.  A natural blackjack at [Start] is a terminal transition that leaves
    the win and loss statistics alone: [play] never calls [_finish_game].
    As written, [play] does not get past the [Debit].  Behind a re-entrant
    lock, a player natural on a stake of 500 is paid 1250, and
    [total_winnings] and [blackjack_won] stay 0 (750 and 1 are due); a dealer
    natural takes the stake and [total_losses] stays 0 (500 is due).  The
    bust on [Hit] does record the loss. *)
Theorem natural_blackjack_skips_statistics :
  play 0 "g1" natural_pile 1 500 (fresh_table (Database.init [])) =
    Blocked (fresh_table (Ledger.locked [])) /\
  (let o := play 0 "g1" natural_pile 1 500 (fresh_table (Ledger.init_rlock [])) in
   result_of (returned o) = Some player_blackjack /\
   balance_of 1 (final_state o) = Some 10750 /\
   stat_of 1 "total_winnings" (final_state o) = Some 0 /\
   stat_of 1 "blackjack_won" (final_state o) = Some 0 /\
   stat_of 1 "blackjack_played" (final_state o) = Some 1) /\
  (let o := play 0 "g1" dealer_natural_pile 1 500 (fresh_table (Ledger.init_rlock [])) in
   result_of (returned o) = Some dealer_blackjack /\
   balance_of 1 (final_state o) = Some 9500 /\
   stat_of 1 "total_losses" (final_state o) = Some 0) /\
  (let started := final_state
       (play 0 "g1" bust_pile 1 500 (fresh_table (Ledger.init_rlock []))) in
   let o := hit 0 "g1" started in
   result_of (returned o) = Some player_bust /\
   stat_of 1 "total_losses" (final_state o) = Some 500 /\
   active_games (final_state o) !! "g1" = None).
Proof. repeat split; vm_compute; reflexivity. Qed.

End Sessions.

(** ** More of the rate limiter *)

Section Cooldowns.
Import RateLimiter Allow Scenario.

Lemma touch_other (user_id other : Z) (m : gmap Z (gmap string Q)) :
  default ∅ (touch user_id m !! other) = default ∅ (m !! other).
Proof.
  unfold touch. destruct (m !! user_id) eqn:Hm; [done|].
  destruct (decide (user_id = other)) as [<-|Hne].
  - by rewrite lookup_insert_eq, Hm.
  - by rewrite lookup_insert_ne.
Qed.

(** What a call records: the current time for its own pair when it is
    allowed and the action is known, nothing otherwise. *)
Lemma check_rate_limit_recorded (current_time : Q) (user_id : Z) (action : string)
    (rl : t) (other : Z) (action' : string) :
  recorded other action' (snd (check_rate_limit current_time user_id action rl)) =
  if bool_decide (other = user_id /\ action' = action)
     && fst (check_rate_limit current_time user_id action rl)
     && bool_decide (is_Some (cooldowns rl !! action))
  then Some current_time
  else recorded other action' rl.
Proof.
  unfold check_rate_limit, recorded.
  destruct (cooldowns rl !! action) as [cd|] eqn:Hcd; simpl.
  2:{ by rewrite andb_false_r. }
  rewrite andb_true_r.
  rewrite touch_lookup.
  set (mine := default ∅ (user_cooldowns rl !! user_id)).
  assert (Hallowed :
    default ∅ (<[user_id := <[action := current_time]> mine]>
                 (touch user_id (user_cooldowns rl)) !! other) !! action' =
    if bool_decide (other = user_id /\ action' = action) then Some current_time
    else default ∅ (user_cooldowns rl !! other) !! action').
  { case_bool_decide as Hsame.
    - destruct Hsame as [-> ->]. by rewrite lookup_insert_eq; simpl; rewrite lookup_insert_eq.
    - destruct (decide (user_id = other)) as [<-|Hne].
      + rewrite lookup_insert_eq. simpl. rewrite lookup_insert_ne; [done|]. naive_solver.
      + rewrite lookup_insert_ne by done. by rewrite touch_other. }
  destruct (mine !! action) as [last|] eqn:Hlast; simpl.
  - destruct (Qltb _ _); simpl.
    + rewrite andb_false_r. by rewrite touch_other.
    + rewrite andb_true_r. exact Hallowed.
  - rewrite andb_true_r. exact Hallowed.
Qed.

Lemma check_rate_limit_cooldowns (current_time : Q) (user_id : Z) (action : string)
    (rl : t) :
  cooldowns (snd (check_rate_limit current_time user_id action rl)) = cooldowns rl.
Proof.
  unfold check_rate_limit. destruct (cooldowns rl !! action); [|done]. simpl.
  destruct (default ∅ _ !! action); [|done]. by destruct (Qltb _ _).
Qed.

(** X1.  When a call for a known action is allowed at time [start], that time
    is recorded.  A later call of the same user for the same action is
    allowed once the cooldown has elapsed since [start], and denied as long
    as the time elapsed is at most the cooldown less one second.  Both
    bounds are whole numbers of seconds below 2^53, which the float
    difference of two clock readings cannot cross by rounding; within the
    last second of the cooldown the answer follows the rounded difference and
    is not stated here. *)
Theorem allowed_call_starts_the_cooldown (start later : Q) (user_id : Z)
    (action : string) (cooldown : Z) (rl : t) :
  cooldowns rl !! action = Some cooldown ->
  Z.abs cooldown < 2 ^ 53 ->
  fst (check_rate_limit start user_id action rl) = true ->
  recorded user_id action (snd (check_rate_limit start user_id action rl)) = Some start /\
  ((inject_Z cooldown <= later - start)%Q ->
     fst (check_rate_limit later user_id action
            (snd (check_rate_limit start user_id action rl))) = true) /\
  ((later - start <= inject_Z (cooldown - 1))%Q ->
     fst (check_rate_limit later user_id action
            (snd (check_rate_limit start user_id action rl))) = false).
Proof.
  intros Hcd _ Hok.
  assert (Hrec : recorded user_id action
                   (snd (check_rate_limit start user_id action rl)) = Some start).
  { rewrite check_rate_limit_recorded, Hok, Hcd.
    rewrite bool_decide_eq_true_2 by done. by rewrite bool_decide_eq_true_2 by eauto. }
  split; [done|].
  rewrite check_rate_limit_allows, check_rate_limit_cooldowns, Hcd, Hrec.
  split.
  - intros Helapsed. apply negb_true_iff, Qltb_false. exact Helapsed.
  - intros Hearly. apply negb_false_iff, Qltb_true.
    assert (inject_Z (cooldown - 1) < inject_Z cooldown)%Q by (rewrite <- Zlt_Qlt; lia).
    lra.
Qed.

Lemma allowed_call_starts_the_cooldown_witness :
  recorded 7 "daily" (snd (check_rate_limit 0 7 "daily" init)) = Some 0%Q /\
  ((inject_Z 86400 <= 90000 - 0)%Q ->
     fst (check_rate_limit 90000 7 "daily" (snd (check_rate_limit 0 7 "daily" init))) = true) /\
  ((90000 - 0 <= inject_Z (86400 - 1))%Q ->
     fst (check_rate_limit 90000 7 "daily" (snd (check_rate_limit 0 7 "daily" init))) = false).
Proof.
  apply (allowed_call_starts_the_cooldown 0 90000 7 "daily" 86400 init); reflexivity.
Defined.

(** X2.  A denied call resets and extends nothing: after it, every call of
    any user for any action at any time gets the answer it would have got
    without it. *)
Theorem denied_call_changes_no_answer (current_time : Q) (user_id : Z)
    (action : string) (rl : t) :
  fst (check_rate_limit current_time user_id action rl) = false ->
  forall (later : Q) (other : Z) (action' : string),
    fst (check_rate_limit later other action'
           (snd (check_rate_limit current_time user_id action rl))) =
    fst (check_rate_limit later other action' rl).
Proof.
  intros Hdenied later other action'.
  rewrite !check_rate_limit_allows, check_rate_limit_cooldowns.
  rewrite check_rate_limit_recorded, Hdenied. by rewrite andb_false_r.
Qed.

Lemma denied_call_changes_no_answer_witness :
  fst (check_rate_limit 5000 7 "daily" claimed_once) = false /\
  fst (check_rate_limit 90000 7 "daily"
         (snd (check_rate_limit 5000 7 "daily" claimed_once))) =
  fst (check_rate_limit 90000 7 "daily" claimed_once).
Proof.
  split; [reflexivity|].
  exact (denied_call_changes_no_answer 5000 7 "daily" claimed_once eq_refl
           90000 7 "daily").
Defined.

(** X3.  Cooldowns are kept per user and per action kind: a call for one
    pair, allowed or denied, does not change the answer of a later call for
    another user or another action. *)
Theorem calls_do_not_interfere (current_time later : Q) (user_id other : Z)
    (action action' : string) (rl : t) :
  (other, action') <> (user_id, action) ->
  fst (check_rate_limit later other action'
         (snd (check_rate_limit current_time user_id action rl))) =
  fst (check_rate_limit later other action' rl).
Proof.
  intros Hne.
  rewrite !check_rate_limit_allows, check_rate_limit_cooldowns.
  rewrite check_rate_limit_recorded.
  rewrite bool_decide_eq_false_2; [done|]. intros [-> ->]. done.
Qed.

Lemma calls_do_not_interfere_witness :
  fst (check_rate_limit 1 7 "game" (snd (check_rate_limit 0 7 "daily" init))) =
  fst (check_rate_limit 1 7 "game" init).
Proof.
  apply (calls_do_not_interfere 0 1 7 7 "daily" "game" init). discriminate.
Defined.

Lemma max0_pos (x : Q) : (0 < max0 x)%Q <-> (0 < x)%Q.
Proof.
  unfold max0. destruct (Qltb 0 x) eqn:Hx.
  - apply Qltb_true in Hx. done.
  - apply Qltb_false in Hx. split; intros H; lra.
Qed.

Lemma max0_nonneg (x : Q) : (0 <= max0 x)%Q.
Proof.
  unfold max0. destruct (Qltb 0 x) eqn:Hx; [|lra].
  apply Qltb_true in Hx. lra.
Qed.

Lemma get_remaining_cooldown_value (current_time : Q) (user_id : Z) (action : string)
    (rl : t) :
  fst (get_remaining_cooldown current_time user_id action rl) =
  match cooldowns rl !! action, recorded user_id action rl with
  | Some cooldown, Some last => max0 (inject_Z cooldown - (current_time - last))
  | _, _ => 0%Q
  end.
Proof.
  unfold get_remaining_cooldown, recorded.
  destruct (cooldowns rl !! action); [|done]. simpl. rewrite touch_lookup.
  by destruct (default ∅ _ !! action).
Qed.

(** X4.  [get_remaining_cooldown] is never negative, is positive exactly when
    [check_rate_limit] at the same time would deny, and asking for it records
    nothing: it changes the answer of no later call. *)
Theorem remaining_cooldown_agrees_with_check (current_time : Q) (user_id : Z)
    (action : string) (rl : t) :
  (0 <= fst (get_remaining_cooldown current_time user_id action rl))%Q /\
  ((0 < fst (get_remaining_cooldown current_time user_id action rl))%Q
   <-> fst (check_rate_limit current_time user_id action rl) = false) /\
  (forall (later : Q) (other : Z) (action' : string),
     fst (check_rate_limit later other action'
            (snd (get_remaining_cooldown current_time user_id action rl))) =
     fst (check_rate_limit later other action' rl)).
Proof.
  split; [|split].
  - rewrite get_remaining_cooldown_value.
    destruct (cooldowns rl !! action); [|lra].
    destruct (recorded user_id action rl); [apply max0_nonneg|lra].
  - rewrite get_remaining_cooldown_value, check_rate_limit_allows.
    destruct (cooldowns rl !! action) as [cd|]; [|split; [lra|done]].
    destruct (recorded user_id action rl) as [last|]; [|split; [lra|done]].
    rewrite max0_pos, negb_false_iff, Qltb_true. split; intros; lra.
  - intros later other action'. rewrite !check_rate_limit_allows.
    assert (Hsame : cooldowns (snd (get_remaining_cooldown current_time user_id action rl))
                      = cooldowns rl /\
                    recorded other action'
                      (snd (get_remaining_cooldown current_time user_id action rl))
                      = recorded other action' rl).
    { unfold get_remaining_cooldown, recorded.
      destruct (cooldowns rl !! action); [|done]. simpl.
      destruct (default ∅ (touch user_id _ !! user_id) !! action); simpl;
        by rewrite touch_other. }
    destruct Hsame as [-> ->]. done.
Qed.

(** X5.  After [reset_action_cooldown] the next call of that user for that
    action is allowed, whatever the time; the answers for every other user or
    action are as before. *)
Theorem reset_action_cooldown_allows (current_time later : Q) (user_id other : Z)
    (action action' : string) (rl : t) :
  fst (check_rate_limit current_time user_id action
         (reset_action_cooldown user_id action rl)) = true /\
  ((other, action') <> (user_id, action) ->
   fst (check_rate_limit later other action' (reset_action_cooldown user_id action rl)) =
   fst (check_rate_limit later other action' rl)).
Proof.
  assert (Hrec : forall o a', recorded o a' (reset_action_cooldown user_id action rl) =
            if bool_decide (o = user_id /\ a' = action) then None else recorded o a' rl).
  { intros o a'. unfold reset_action_cooldown, recorded.
    destruct (user_cooldowns rl !! user_id) as [mine|] eqn:Hmine.
    - destruct (mine !! action) as [last|] eqn:Hlast; simpl.
      + case_bool_decide as Hsame.
        * destruct Hsame as [-> ->]. rewrite lookup_insert_eq. simpl. apply lookup_delete_eq.
        * destruct (decide (user_id = o)) as [<-|Hne].
          -- rewrite lookup_insert_eq, Hmine. simpl. apply lookup_delete_ne. naive_solver.
          -- by rewrite lookup_insert_ne.
      + case_bool_decide as Hsame; [|done]. destruct Hsame as [-> ->].
        by rewrite Hmine.
    - case_bool_decide as Hsame; [|done]. destruct Hsame as [-> ->].
      by rewrite Hmine. }
  assert (Hcd : cooldowns (reset_action_cooldown user_id action rl) = cooldowns rl).
  { unfold reset_action_cooldown. destruct (user_cooldowns rl !! user_id) as [mine|]; [|done].
    by destruct (mine !! action). }
  split.
  - rewrite check_rate_limit_allows, Hrec, bool_decide_eq_true_2 by done.
    by destruct (cooldowns _ !! action).
  - intros Hne. rewrite !check_rate_limit_allows, Hrec, Hcd.
    rewrite bool_decide_eq_false_2; [done|]. intros [-> ->]. done.
Qed.

(** X6.  After [reset_user_cooldowns] the user has no entry left and the next
    call for any action is allowed; the answers for the other users are as
    before. *)
Theorem reset_user_cooldowns_allows (current_time later : Q) (user_id other : Z)
    (action action' : string) (rl : t) :
  fst (check_rate_limit current_time user_id action
         (reset_user_cooldowns user_id rl)) = true /\
  user_cooldowns (reset_user_cooldowns user_id rl) !! user_id = None /\
  (other <> user_id ->
   fst (check_rate_limit later other action' (reset_user_cooldowns user_id rl)) =
   fst (check_rate_limit later other action' rl)).
Proof.
  assert (Hmap : user_cooldowns (reset_user_cooldowns user_id rl) =
                 delete user_id (user_cooldowns rl)).
  { unfold reset_user_cooldowns. destruct (user_cooldowns rl !! user_id) eqn:Hu; [done|].
    symmetry. by apply delete_id. }
  assert (Hcd : cooldowns (reset_user_cooldowns user_id rl) = cooldowns rl).
  { unfold reset_user_cooldowns. by destruct (user_cooldowns rl !! user_id). }
  split; [|split].
  - rewrite check_rate_limit_allows. unfold recorded. rewrite Hmap, lookup_delete_eq. simpl.
    rewrite lookup_empty. by destruct (cooldowns _ !! action).
  - rewrite Hmap. apply lookup_delete_eq.
  - intros Hne. rewrite !check_rate_limit_allows, Hcd. unfold recorded.
    by rewrite Hmap, lookup_delete_ne.
Qed.

(** X7.  [is_user_rate_limited] lists exactly the actions that
    [check_rate_limit] would deny at that time, each with the time that
    [get_remaining_cooldown] reports. *)
Theorem is_user_rate_limited_lists_denied_actions (current_time : Q) (user_id : Z)
    (action : string) (rl : t) :
  (is_Some (is_user_rate_limited current_time user_id rl !! action)
   <-> fst (check_rate_limit current_time user_id action rl) = false) /\
  (forall remaining,
     is_user_rate_limited current_time user_id rl !! action = Some remaining ->
     remaining = fst (get_remaining_cooldown current_time user_id action rl)).
Proof.
  assert (Hlookup : is_user_rate_limited current_time user_id rl !! action =
    match cooldowns rl !! action, recorded user_id action rl with
    | Some cd, Some last =>
        if Qltb 0 (inject_Z cd - (current_time - last))
        then Some (inject_Z cd - (current_time - last))%Q else None
    | _, _ => None
    end).
  { unfold is_user_rate_limited, recorded.
    destruct (user_cooldowns rl !! user_id) as [mine|]; simpl.
    - rewrite map_lookup_imap. destruct (cooldowns rl !! action); [|done]. simpl.
      by destruct (mine !! action).
    - rewrite lookup_empty. by destruct (cooldowns rl !! action). }
  split.
  - rewrite Hlookup, check_rate_limit_allows.
    destruct (cooldowns rl !! action) as [cd|]; [|split; [by intros [? ?]|done]].
    destruct (recorded user_id action rl) as [last|]; [|split; [by intros [? ?]|done]].
    rewrite negb_false_iff, Qltb_true.
    destruct (Qltb 0 _) eqn:Hpos.
    + apply Qltb_true in Hpos. split; [intros _; lra|eauto].
    + apply Qltb_false in Hpos. split; [by intros [? ?]|intros; lra].
  - intros remaining. rewrite Hlookup, get_remaining_cooldown_value.
    destruct (cooldowns rl !! action) as [cd|]; [|done].
    destruct (recorded user_id action rl) as [last|]; [|done].
    unfold max0. destruct (Qltb 0 _); [by intros [= <-]|done].
Qed.

(** X8.  [cleanup_old_entries] adds and alters nothing: an entry recorded
    after the sweep was recorded before, with the same time.  It keeps every
    entry that is not older than the horizon and drops every entry that is
    older than the horizon by a second or more.  No user is left with an
    empty dictionary, and sweeping again at the same time changes nothing.
    The two bounds on the age are whole numbers of seconds below 2^53, which
    the float difference of two clock readings cannot cross by rounding; for
    an age within the second after the horizon the sweep follows the rounded
    difference, which is not stated here. *)
Theorem cleanup_keeps_recent_entries (current_time : Q) (max_age_hours : Z)
    (user_id : Z) (action : string) (rl : t) :
  Z.abs (max_age_hours * 3600) < 2 ^ 53 ->
  (forall last,
     recorded user_id action (cleanup_old_entries current_time max_age_hours rl) = Some last ->
     recorded user_id action rl = Some last) /\
  (forall last,
     recorded user_id action rl = Some last ->
     (current_time - last <= inject_Z (max_age_hours * 3600))%Q ->
     recorded user_id action (cleanup_old_entries current_time max_age_hours rl) = Some last) /\
  (forall last,
     recorded user_id action rl = Some last ->
     (inject_Z (max_age_hours * 3600 + 1) <= current_time - last)%Q ->
     recorded user_id action (cleanup_old_entries current_time max_age_hours rl) = None) /\
  user_cooldowns (cleanup_old_entries current_time max_age_hours rl) !! user_id <> Some ∅ /\
  cleanup_old_entries current_time max_age_hours
    (cleanup_old_entries current_time max_age_hours rl) =
  cleanup_old_entries current_time max_age_hours rl.
Proof.
  intros _. split; [|split; [|split; [|split]]].
  - intros last. rewrite cleanup_recorded.
    destruct (recorded user_id action rl) as [last'|]; [|done].
    by destruct (expired _ _ _).
  - intros last Hlast Hrecent. rewrite cleanup_recorded, Hlast.
    unfold expired. destruct (Qltb _ _) eqn:Hexp; [|done].
    apply Qltb_true in Hexp. lra.
  - intros last Hlast Hold. rewrite cleanup_recorded, Hlast.
    unfold expired. destruct (Qltb _ _) eqn:Hexp; [done|].
    apply Qltb_false in Hexp.
    assert (inject_Z (max_age_hours * 3600) < inject_Z (max_age_hours * 3600 + 1))%Q
      by (rewrite <- Zlt_Qlt; lia).
    lra.
  - unfold cleanup_old_entries. simpl. rewrite lookup_omap.
    destruct (user_cooldowns rl !! user_id) as [mine|]; simpl; [|done].
    unfold sweep_user. destruct (decide (_ = ∅)) as [|Hne]; [done|]. by intros [= ?].
  - unfold cleanup_old_entries, set_user_cooldowns. simpl. f_equal.
    apply map_eq. intros u. rewrite !lookup_omap.
    destruct (user_cooldowns rl !! u) as [mine|]; simpl; [|done].
    destruct (sweep_user current_time (max_age_hours * 3600) mine) as [kept|] eqn:Hsweep;
      simpl; [|done].
    unfold sweep_user in *.
    destruct (decide (filter _ mine = ∅)) as [|Hne]; [done|]. injection Hsweep as <-.
    rewrite map_filter_id.
    + by destruct (decide (_ = ∅)).
    + by intros a last [_ Hkeep]%map_lookup_filter_Some.
Qed.

Lemma cleanup_keeps_recent_entries_witness :
  recorded 7 "daily" (cleanup_old_entries 4000 24 claimed_once) = Some 0%Q /\
  recorded 7 "daily" (cleanup_old_entries 90000 24 claimed_once) = None.
Proof.
  destruct (cleanup_keeps_recent_entries 4000 24 7 "daily" claimed_once
              ltac:(reflexivity)) as (_ & Hkeep & _).
  destruct (cleanup_keeps_recent_entries 90000 24 7 "daily" claimed_once
              ltac:(reflexivity)) as (_ & _ & Hdrop & _).
  split.
  - apply Hkeep; [reflexivity|]. unfold Qle. simpl. lia.
  - apply (Hdrop 0%Q); [reflexivity|]. unfold Qle. simpl. lia.
Defined.

End Cooldowns.

(** ** More of the ledger *)

Section Accounts.
Import Database Ledger Scenario.

Lemma dict_get_None_keys {V} (k : Z) (d : list (Z * V)) :
  dict_get k d = None <-> k ∉ map fst d.
Proof.
  induction d as [|[k' v] d IH]; simpl.
  - split; [intros _; apply not_elem_of_nil|done].
  - rewrite not_elem_of_cons. destruct (Z.eqb_spec k k') as [->|Hne].
    + split; [done|]. by intros [? _].
    + rewrite IH. split; [by intros ?; split|by intros [_ ?]].
Qed.

Lemma dict_set_new {V} (k : Z) (v : V) (d : list (Z * V)) :
  dict_get k d = None -> dict_set k v d = d ++ [(k, v)].
Proof.
  induction d as [|[k' v'] d IH]; simpl; [done|].
  destruct (Z.eqb_spec k k'); [done|]. intros Hd. by rewrite IH.
Qed.

Lemma dict_get_del_ne {V} (k k' : Z) (d : list (Z * V)) :
  k <> k' -> dict_get k' (dict_del k d) = dict_get k' d.
Proof.
  intros Hne. induction d as [|[k0 v0] d IH]; simpl; [done|].
  destruct (Z.eqb_spec k k0) as [->|Hne0]; simpl.
  - destruct (Z.eqb_spec k' k0); [congruence|done].
  - destruct (Z.eqb_spec k' k0); [done|apply IH].
Qed.

Lemma dict_del_keys {V} (k : Z) (d : list (Z * V)) :
  NoDup (map fst d) ->
  NoDup (map fst (dict_del k d)) /\ (k ∉ map fst (dict_del k d)) /\
  (forall k', k' ∈ map fst (dict_del k d) -> k' ∈ map fst d).
Proof.
  induction d as [|[k0 v0] d IH]; simpl.
  - intros _. split; [constructor|]. split; [apply not_elem_of_nil|done].
  - intros [Hnotin Hnd]%NoDup_cons. destruct (IH Hnd) as (IH1 & IH2 & IH3).
    destruct (Z.eqb_spec k k0) as [->|Hne]; simpl.
    + split; [done|]. split; [done|]. intros k'. by right.
    + split; [|split].
      * apply NoDup_cons. split; [|done]. intros Hin. apply Hnotin. by apply IH3.
      * apply not_elem_of_cons. done.
      * intros k' [->|Hin]%elem_of_cons; [by left|right; by apply IH3].
Qed.

Lemma dict_del_absent {V} (k : Z) (d : list (Z * V)) :
  dict_get k d = None -> dict_del k d = d.
Proof.
  induction d as [|[k0 v0] d IH]; simpl; [done|].
  destruct (Z.eqb_spec k k0); [done|]. intros Hd. by rewrite IH.
Qed.

(** X9.  [get_user] called on its own returns, with the lock released.  For
    a user without an account it appends a new account at the end of the
    table: balance 10000, nothing staked, won or played, no daily bonus
    claimed, every statistic 0.  For an existing account it changes the
    last-played time only and keeps the order of the keys.  The account it
    returns is the one in the table.  No other account changes, and distinct
    keys stay distinct.  Nothing is said of the two time stamps of a new
    account. *)
Theorem get_user_creates_or_stamps (now uid : Z) (us : list (Z * user_data)) :
  exists u,
    get_user now uid (init us) = Ret u (init (dict_set uid u us)) /\
    match dict_get uid us with
    | None => starting_account u /\ dict_set uid u us = us ++ [(uid, u)]
    | Some old => u = set_last_played now old /\
                  map fst (dict_set uid u us) = map fst us
    end /\
    dict_get uid (dict_set uid u us) = Some u /\
    (forall other, other <> uid ->
       dict_get other (dict_set uid u us) = dict_get other us) /\
    (NoDup (map fst us) -> NoDup (map fst (dict_set uid u us))).
Proof.
  exists (account now uid us).
  assert (Htouched : touched now uid us = dict_set uid (account now uid us) us).
  { unfold touched, account. by destruct (dict_get uid us). }
  rewrite <- Htouched.
  split; [apply get_user_returns|]. split; [|split; [apply get_user_touched|split]].
  - unfold account, touched. destruct (dict_get uid us) as [old|] eqn:Hu.
    + split; [done|]. apply dict_set_keys. by rewrite Hu.
    + split; [done|]. by apply dict_set_new.
  - intros other Hne. rewrite Htouched. apply dict_get_set_ne. congruence.
  - unfold touched. destruct (dict_get uid us) as [old|] eqn:Hu.
    + rewrite dict_set_keys; [done|]. by rewrite Hu.
    + intros Hnd. rewrite dict_set_new by done. rewrite map_app. simpl.
      apply NoDup_app. split; [done|]. split.
      * intros k Hk ->%list_elem_of_singleton. by apply dict_get_None_keys in Hu.
      * apply NoDup_singleton.
Qed.

(** X10.  In a table with distinct keys, [reset_user_data] returns, removes
    the account of the user and no other; the next [get_user] for that user
    creates an account anew, with the starting balance and cleared
    statistics, at the end of the table. *)
Theorem reset_user_data_forgets_the_account (now uid : Z) (us : list (Z * user_data)) :
  NoDup (map fst us) ->
  reset_user_data uid (init us) = Ret tt (init (dict_del uid us)) /\
  dict_get uid (dict_del uid us) = None /\
  (forall other, other <> uid -> dict_get other (dict_del uid us) = dict_get other us) /\
  exists u,
    get_user now uid (init (dict_del uid us)) =
      Ret u (init (dict_del uid us ++ [(uid, u)])) /\
    starting_account u.
Proof.
  intros Hnd.
  assert (Hgone : dict_get uid (dict_del uid us) = None).
  { apply dict_get_None_keys. by apply dict_del_keys. }
  split; [|split; [done|split]].
  - run_db. unfold reset_user_data, with_lock, bind, gets, modify, _save_data, ret. simpl.
    destruct (dict_get uid us) eqn:Hu; simpl; [done|].
    by rewrite dict_del_absent.
  - intros other Hne. apply dict_get_del_ne. congruence.
  - exists (new_user now). split; [|done].
    rewrite get_user_returns. unfold account, touched. rewrite Hgone.
    by rewrite dict_set_new.
Qed.

Lemma reset_user_data_forgets_the_account_witness :
  reset_user_data 1 (init two_accounts) = Ret tt (init (dict_del 1 two_accounts)) /\
  dict_get 1 (dict_del 1 two_accounts) = None /\
  (forall other, other <> 1 ->
     dict_get other (dict_del 1 two_accounts) = dict_get other two_accounts) /\
  exists u,
    get_user 5 1 (init (dict_del 1 two_accounts)) =
      Ret u (init (dict_del 1 two_accounts ++ [(1, u)])) /\
    starting_account u.
Proof.
  apply (reset_user_data_forgets_the_account 5 1 two_accounts).
  apply (bool_decide_unpack _). vm_compute. exact I.
Defined.

(** X11.  [claim_daily] for a user without an account raises [KeyError]; the
    table is unchanged and the lock is released. *)
Theorem claim_daily_without_account_raises (now uid amount : Z)
    (us : list (Z * user_data)) :
  dict_get uid us = None ->
  claim_daily now uid amount (init us) = Raise KeyError (init us).
Proof. intros Hu. run_db. rewrite Hu. reflexivity. Qed.

Lemma claim_daily_without_account_raises_witness :
  claim_daily 0 9 1000 (init two_accounts) = Raise KeyError (init two_accounts).
Proof. apply (claim_daily_without_account_raises 0 9 1000 two_accounts). reflexivity. Defined.

End Accounts.

(** ** More of the leaderboard *)

Section Board.
Import Database Ledger Scenario.

Lemma StronglySorted_take_desc (n : nat) (l : list entry) :
  StronglySorted desc l -> StronglySorted desc (take n l).
Proof.
  intros Hs. revert n. induction Hs as [|x l Hs IH Hall]; intros [|n]; simpl;
    try constructor; [apply IH|].
  apply Forall_forall. intros y Hy. rewrite Forall_forall in Hall.
  apply Hall. by apply (subseteq_take n l).
Qed.

Lemma sort_desc_length (l : list entry) : length (sort_desc l) = length l.
Proof. by rewrite (sort_desc_perm l). Qed.

Lemma get_leaderboard_length (limit : nat) (db : t) :
  length (get_leaderboard limit db) = Nat.min limit (get_user_count db).
Proof.
  unfold get_leaderboard, get_user_count.
  by rewrite length_take, sort_desc_length, length_map.
Qed.

Lemma get_leaderboard_rows (limit : nat) (db : t) (e : entry) :
  e ∈ get_leaderboard limit db -> e ∈ map entry_of (users db).
Proof.
  unfold get_leaderboard. intros He.
  rewrite <- (sort_desc_perm (map entry_of (users db))).
  by apply (subseteq_take limit).
Qed.

(** X12.  [get_leaderboard] returns rows in order of non-increasing balance,
    as many as the smaller of the limit and the number of accounts, each the
    row of an account; when the limit covers all accounts, the rows are a
    permutation of the accounts' rows. *)
Theorem get_leaderboard_is_sorted (limit : nat) (db : t) :
  StronglySorted desc (get_leaderboard limit db) /\
  length (get_leaderboard limit db) = Nat.min limit (get_user_count db) /\
  (forall e, e ∈ get_leaderboard limit db -> e ∈ map entry_of (users db)) /\
  ((get_user_count db <= limit)%nat ->
   get_leaderboard limit db ≡ₚ map entry_of (users db)).
Proof.
  split; [|split; [|split]].
  - apply StronglySorted_take_desc, sort_desc_sorted.
  - apply get_leaderboard_length.
  - apply get_leaderboard_rows.
  - unfold get_leaderboard, get_user_count. intros Hall.
    rewrite take_ge; [apply sort_desc_perm|].
    rewrite sort_desc_length, length_map. done.
Qed.

Lemma rank_scan_lookup (uid i r : Z) (l : list entry) :
  rank_scan uid i l = Some r ->
  exists e, l !! Z.to_nat (r - i - 1) = Some e /\ e_user_id e = uid.
Proof.
  revert i. induction l as [|e l IH]; intros i; simpl; [done|].
  destruct (Z.eqb_spec (e_user_id e) uid) as [Heq|Hne].
  - intros [= <-]. exists e. replace (i + 1 - i - 1) with 0 by lia. done.
  - intros Hr. pose proof (rank_scan_bounds _ _ _ _ Hr) as Hb.
    destruct (IH _ Hr) as (e' & He' & Hid). exists e'. split; [|done].
    replace (Z.to_nat (r - i - 1)) with (S (Z.to_nat (r - (i + 1) - 1))) by lia. done.
Qed.

Lemma row_of_unique (uid : Z) (me e : entry) (l : list entry) :
  NoDup (map e_user_id l) -> row_of uid l = Some me ->
  e ∈ l -> e_user_id e = uid -> e = me.
Proof.
  induction l as [|x l IH]; simpl; [done|].
  intros [Hnotin Hnd]%NoDup_cons.
  destruct (Z.eqb_spec (e_user_id x) uid) as [Heq|Hne].
  - intros [= <-] [->|He]%elem_of_cons Hid; [done|].
    exfalso. apply Hnotin. rewrite Heq, <- Hid. apply elem_of_map. eauto.
  - intros Hrow [->|He]%elem_of_cons Hid; [done|]. by apply IH.
Qed.

(** X13.  In a table with distinct keys, the row of an account stands on the
    leaderboard at its position in the full ordering (balance descending,
    ties in insertion order), provided the limit reaches that position. *)
Theorem leaderboard_row_at_position (limit : nat) (db : t) (uid r : Z) (me : entry) :
  NoDup (map fst (users db)) ->
  row_of uid (map entry_of (users db)) = Some me ->
  rank uid db = Some r ->
  r <= Z.of_nat limit ->
  get_leaderboard limit db !! Z.to_nat (r - 1) = Some me.
Proof.
  intros Hnd Hrow Hrank Hlimit. unfold rank in Hrank. unfold get_leaderboard.
  set (l := map entry_of (users db)) in *.
  assert (Hkeys : NoDup (map e_user_id l)) by (unfold l; by rewrite entry_keys).
  assert (Hscan : rank_scan uid 0 (sort_desc l) = Some r)
    by by rewrite rank_scan_sort_desc.
  pose proof (rank_scan_bounds _ _ _ _ Hscan) as Hb.
  destruct (rank_scan_lookup _ _ _ _ Hscan) as (e & He & Hid).
  replace (r - 0 - 1) with (r - 1) in He by lia.
  rewrite lookup_take_lt by lia. rewrite He. f_equal.
  eapply row_of_unique; [exact Hkeys|exact Hrow| |exact Hid].
  rewrite <- (sort_desc_perm l). eapply list_elem_of_lookup_2, He.
Qed.

Lemma leaderboard_row_at_position_witness :
  get_leaderboard 10 (init two_accounts) !! Z.to_nat (2 - 1) =
  Some (entry_of (1, set_balance 100 (new_user 0))).
Proof.
  apply (leaderboard_row_at_position 10 (init two_accounts) 1 2).
  - apply (bool_decide_unpack _). vm_compute. exact I.
  - reflexivity.
  - reflexivity.
  - lia.
Defined.

(** X14.  For a user without an account [get_user_rank] returns one more than
    the number of rows of the board it searched: the number of accounts plus
    one, and 1001 when there are more than 1000 accounts. *)
Theorem get_user_rank_without_account (db : t) (uid : Z) :
  uid ∉ map fst (users db) ->
  get_user_rank uid db = Z.of_nat (Nat.min 1000 (get_user_count db)) + 1.
Proof.
  intros Hnotin. unfold get_user_rank.
  destruct (rank_scan uid 0 (get_leaderboard 1000 db)) as [r|] eqn:Hscan.
  - exfalso. apply rank_scan_found in Hscan as (e & He & Hid).
    apply get_leaderboard_rows in He.
    apply Hnotin. rewrite <- entry_keys, <- Hid. apply elem_of_map. eauto.
  - by rewrite get_leaderboard_length.
Qed.
Lemma get_user_rank_without_account_witness :
  get_user_rank 9 (init two_accounts) = Z.of_nat (Nat.min 1000 (get_user_count (init two_accounts))) + 1.
Proof.
  apply (get_user_rank_without_account (init two_accounts) 9).
  apply (bool_decide_unpack _). vm_compute. exact I.
Defined.

End Board.

(** ** Hands and the dealer's loop *)

Section Hands.
Import BlackjackGame Spec Cards.

Lemma demote_steps (aces : nat) (value : Z) :
  exists k : nat, (k <= aces)%nat /\
    demote aces value = value - 10 * Z.of_nat k /\
    (forall j : nat, (j < k)%nat -> value - 10 * Z.of_nat j > 21) /\
    ((k < aces)%nat -> demote aces value <= 21).
Proof.
  revert value. induction aces as [|aces IH]; intros value; simpl.
  - exists O. repeat split; [lia|lia|lia|lia].
  - destruct (Z.gtb_spec value 21) as [Hgt|Hle].
    + destruct (IH (value - 10)) as (k & Hk & Heq & Hbefore & Hafter).
      exists (S k). split; [lia|]. split; [lia|]. split.
      * intros [|j] Hj; [lia|]. specialize (Hbefore j). lia.
      * intros Hlt. apply Hafter. lia.
    + exists O. split; [lia|]. split; [lia|]. split; [lia|]. lia.
Qed.

(** X15.  [hand_value] is the best total of the hand: it is the total with
    every ace at 11 lowered by 10 for some of the aces, no way of counting
    the aces gives a total that is at most 21 and greater, it exceeds 21
    only when the hand exceeds 21 with every ace counted 1, and it is that
    hard total then. *)
Theorem hand_value_is_the_best_total (hand : list card) :
  (exists k : nat, (k <= aces_in hand)%nat /\
     hand_value hand = raw_total hand - 10 * Z.of_nat k) /\
  (forall k : nat, (k <= aces_in hand)%nat ->
     raw_total hand - 10 * Z.of_nat k <= 21 ->
     raw_total hand - 10 * Z.of_nat k <= hand_value hand <= 21) /\
  (hand_value hand > 21 <-> hard_total hand > 21) /\
  (hard_total hand > 21 -> hand_value hand = hard_total hand).
Proof.
  rewrite hand_value_raw, hard_total_raw.
  destruct (demote_steps (aces_in hand) (raw_total hand))
    as (k & Hk & Heq & Hbefore & Hafter).
  assert (Hbest : forall j : nat, (j <= aces_in hand)%nat ->
            raw_total hand - 10 * Z.of_nat j <= 21 ->
            raw_total hand - 10 * Z.of_nat j <= demote (aces_in hand) (raw_total hand) <= 21).
  { intros j Hj Hle. destruct (decide (j < k)%nat) as [Hlt|Hge].
    - specialize (Hbefore j Hlt). lia.
    - split; [lia|]. destruct (decide (k < aces_in hand)%nat); [by apply Hafter|].
      assert (j = k) by lia. subst j. lia. }
  split; [eauto|]. split; [exact Hbest|]. split; [split|].
  - intros Hbust. destruct (Z_le_gt_dec (raw_total hand - 10 * Z.of_nat (aces_in hand)) 21)
      as [Hle|Hgt]; [|done].
    specialize (Hbest (aces_in hand) (Nat.le_refl _) Hle). lia.
  - intros Hhard. lia.
  - intros Hhard. destruct (decide (k < aces_in hand)%nat) as [Hlt|Hge].
    + specialize (Hafter Hlt). lia.
    + assert (k = aces_in hand) by lia. subst k. done.
Qed.

Lemma raw_total_perm (h1 h2 : list card) : h1 ≡ₚ h2 -> raw_total h1 = raw_total h2.
Proof. induction 1; simpl; lia. Qed.

Lemma aces_in_perm (h1 h2 : list card) : h1 ≡ₚ h2 -> aces_in h1 = aces_in h2.
Proof.
  induction 1 as [|x l1 l2 _ IH|x y l|l1 l2 l3 _ IH1 _ IH2]; simpl; try congruence.
  - by rewrite IH.
  - by destruct (is_ace x), (is_ace y).
Qed.

(** X16.  The order of the cards does not matter: [hand_value],
    [is_blackjack] and [should_dealer_hit] give the same answer on two hands
    that hold the same cards. *)
Theorem hand_order_does_not_matter (h1 h2 : list card) :
  h1 ≡ₚ h2 ->
  hand_value h1 = hand_value h2 /\
  is_blackjack h1 = is_blackjack h2 /\
  should_dealer_hit h1 = should_dealer_hit h2.
Proof.
  intros Hperm.
  assert (Hv : hand_value h1 = hand_value h2).
  { rewrite !hand_value_raw. by rewrite (raw_total_perm _ _ Hperm), (aces_in_perm _ _ Hperm). }
  split; [done|]. split.
  - unfold is_blackjack. by rewrite Hv, (Permutation_length Hperm).
  - destruct (Z.eq_dec (hand_value h1) 17) as [H17|Hne].
    + assert (H17' : hand_value h2 = 17) by congruence.
      pose proof (should_dealer_hit_at_17 h1 H17) as E1.
      pose proof (should_dealer_hit_at_17 h2 H17') as E2.
      rewrite (raw_total_perm _ _ Hperm), (aces_in_perm _ _ Hperm) in E1.
      destruct (should_dealer_hit h1), (should_dealer_hit h2); try done.
      * symmetry. apply E2, E1. done.
      * apply E1, E2. done.
    + unfold should_dealer_hit. rewrite <- Hv.
      destruct (hand_value h1 <? 17); [done|].
      destruct (Z.eqb_spec (hand_value h1) 17); [done|done].
Qed.

Lemma hand_order_does_not_matter_witness :
  hand_value [six_d; ace_s] = hand_value [ace_s; six_d] /\
  is_blackjack [six_d; ace_s] = is_blackjack [ace_s; six_d] /\
  should_dealer_hit [six_d; ace_s] = should_dealer_hit [ace_s; six_d].
Proof. apply hand_order_does_not_matter. apply perm_swap. Defined.

(** X17.  [is_blackjack] holds exactly for the hands of two cards of which
    one is an ace and the other counts 10. *)
Theorem is_blackjack_is_ace_and_ten (hand : list card) :
  is_blackjack hand = true <->
  exists c1 c2, hand = [c1; c2] /\
    ((is_ace c1 = true /\ card_value c2 = 10) \/
     (card_value c1 = 10 /\ is_ace c2 = true)).
Proof.
  unfold is_blackjack. rewrite andb_true_iff, Nat.eqb_eq, Z.eqb_eq. split.
  - intros [Hlen Hv]. destruct hand as [|c1 [|c2 [|c3 hand]]]; try done.
    exists c1, c2. split; [done|].
    revert Hv. unfold hand_value, count_hand, is_ace, card_value.
    destruct (c_rank c1), (c_rank c2); simpl; intros; first [lia | by left | by right].
  - intros (c1 & c2 & -> & Hor). split; [done|].
    revert Hor. unfold hand_value, count_hand, is_ace, card_value.
    destruct (c_rank c1), (c_rank c2); simpl; intros [[? ?]|[? ?]]; first [done | lia].
Qed.

(** X18.  The dealer's loop of [stand] draws a prefix of the pile, in order,
    onto the end of the hand.  [should_dealer_hit] held before every draw.
    The loop ends either on a hand of 17 or more on which
    [should_dealer_hit] fails, or on the empty pile with a card still due. *)
Theorem dealer_turn_draws_a_prefix (pile hand rest final : list card) (exhausted : bool) :
  dealer_turn pile hand = (rest, final, exhausted) ->
  exists drawn,
    pile = drawn ++ rest /\ final = hand ++ drawn /\
    (forall n, (n < length drawn)%nat -> should_dealer_hit (hand ++ take n drawn) = true) /\
    (if exhausted then rest = [] /\ should_dealer_hit final = true
     else should_dealer_hit final = false /\ 17 <= hand_value final).
Proof.
  revert hand. induction pile as [|c pile IH]; intros hand; simpl.
  - destruct (should_dealer_hit hand) eqn:Hhit; intros [= <- <- <-]; exists [];
      rewrite !app_nil_r; (split; [done|]; split; [done|]; split; [simpl; lia|]).
    + done.
    + split; [done|]. unfold should_dealer_hit in Hhit.
      destruct (Z.ltb_spec (hand_value hand) 17); [done|lia].
  - destruct (should_dealer_hit hand) eqn:Hhit.
    + intros Hturn. destruct (IH _ Hturn) as (drawn & -> & -> & Hprefix & Hend).
      exists (c :: drawn). split; [done|]. split; [by rewrite <- app_assoc|]. split.
      * intros [|n] Hn; simpl; [by rewrite app_nil_r|].
        specialize (Hprefix n). rewrite <- app_assoc in Hprefix. simpl in *.
        apply Hprefix. lia.
      * done.
    + intros [= <- <- <-]. exists []. rewrite !app_nil_r.
      split; [done|]. split; [done|]. split; [simpl; lia|]. split; [done|].
      unfold should_dealer_hit in Hhit.
      destruct (Z.ltb_spec (hand_value hand) 17); [done|lia].
Qed.

Lemma dealer_turn_draws_a_prefix_witness :
  dealer_turn [two_s; king_s] [nine_c; five_c] =
    ([], [nine_c; five_c; two_s; king_s], false) /\
  exists drawn,
    [two_s; king_s] = drawn ++ [] /\
    [nine_c; five_c; two_s; king_s] = [nine_c; five_c] ++ drawn /\
    (forall n, (n < length drawn)%nat ->
       should_dealer_hit ([nine_c; five_c] ++ take n drawn) = true) /\
    should_dealer_hit [nine_c; five_c; two_s; king_s] = false /\
    17 <= hand_value [nine_c; five_c; two_s; king_s].
Proof.
  split; [reflexivity|].
  exact (dealer_turn_draws_a_prefix [two_s; king_s] [nine_c; five_c] []
           [nine_c; five_c; two_s; king_s] false eq_refl).
Defined.

End Hands.

(** ** What a call leaves as it is *)

Section FrameFacts.
Import Database Frame.
Context {S : Type} (table : S -> list (Z * user_data)).
Context (R : relation (list (Z * user_data))) `{!PreOrder R}.

Lemma preserves_ret {A} (a : A) : preserves table R (ret a).
Proof. intros s. simpl. reflexivity. Qed.

Lemma preserves_raise {A} (e : exn) : preserves table R (raise (A := A) e).
Proof. intros s. simpl. reflexivity. Qed.

Lemma preserves_gets {A} (f : S -> A) : preserves table R (gets f).
Proof. intros s. simpl. reflexivity. Qed.

Lemma preserves_bind {A B} (m : M S A) (k : A -> M S B) :
  preserves table R m -> (forall a, preserves table R (k a)) ->
  preserves table R (bind m k).
Proof.
  intros Hm Hk s. specialize (Hm s). unfold bind.
  destruct (m s) as [a s1|e s1|s1]; simpl in *; [|done|done].
  etrans; [exact Hm|apply Hk].
Qed.

End FrameFacts.

(** One step of a frame argument: the shape of the call decides the rule. *)
Ltac frame_bind := apply preserves_bind; try apply _; [|intros ?].
Ltac frame_done :=
  first [apply preserves_ret | apply preserves_raise | apply preserves_gets];
  try apply _.

Section LedgerFrame.
Import Database Ledger Frame.

#[global] Instance others_kept_preorder (uid : Z) : PreOrder (others_kept uid).
Proof.
  split.
  - by intros us other _.
  - intros us1 us2 us3 H12 H23 other Hne. by rewrite H23, H12.
Qed.

#[global] Instance money_kept_preorder : PreOrder money_kept.
Proof.
  split.
  - intros us uid u Hu. by exists u.
  - intros us1 us2 us3 H12 H23 uid u Hu.
    destruct (H12 uid u Hu) as (u2 & Hu2 & Hb2 & Ht2).
    destruct (H23 uid u2 Hu2) as (u3 & Hu3 & Hb3 & Ht3).
    exists u3. split; [done|]. split; congruence.
Qed.

Lemma others_kept_set (uid : Z) (u : user_data) (us : list (Z * user_data)) :
  others_kept uid us (dict_set uid u us).
Proof. intros other Hne. apply dict_get_set_ne. congruence. Qed.

Lemma others_kept_del (uid : Z) (us : list (Z * user_data)) :
  others_kept uid us (dict_del uid us).
Proof. intros other Hne. apply dict_get_del_ne. congruence. Qed.

Lemma money_kept_set (uid : Z) (u v : user_data) (us : list (Z * user_data)) :
  dict_get uid us = Some u -> balance v = balance u -> total_bet v = total_bet u ->
  money_kept us (dict_set uid v us).
Proof.
  intros Hu Hb Ht other w Hw. destruct (Z.eq_dec uid other) as [<-|Hne].
  - exists v. split; [apply dict_get_set_eq|]. split; congruence.
  - exists w. by rewrite dict_get_set_ne.
Qed.

Lemma money_kept_new (uid : Z) (v : user_data) (us : list (Z * user_data)) :
  dict_get uid us = None -> money_kept us (dict_set uid v us).
Proof.
  intros Hu other w Hw. exists w. split; [|done].
  rewrite dict_get_set_ne; [done|]. congruence.
Qed.

Lemma money_kept_touched (now uid : Z) (us : list (Z * user_data)) :
  money_kept us (touched now uid us).
Proof.
  unfold touched. destruct (dict_get uid us) as [u|] eqn:Hu.
  - by apply (money_kept_set uid u).
  - by apply money_kept_new.
Qed.

(** [get_user] under any state of the lock. *)
Lemma get_user_any (now uid : Z) (d : t) :
  get_user now uid d =
  match acquire (_lock d) with
  | None => Blocked d
  | Some l => Ret (account now uid (users d))
                {| users := touched now uid (users d); _lock := release l |}
  end.
Proof.
  destruct d as [us lk]. unfold get_user, with_lock. simpl.
  destruct (acquire lk) as [l|]; [|done].
  unfold touched, account, bind, gets. simpl.
  destruct (dict_get uid us) eqn:Hg; run_db; simpl; rewrite ?Hg; simpl;
    rewrite dict_get_set_eq; done.
Qed.

Section Calls.
Context (R : relation (list (Z * user_data))) `{!PreOrder R}.

Lemma preserves_with_lock {A} (body : M t A) :
  preserves users R body -> preserves users R (with_lock body).
Proof.
  intros Hbody d. unfold with_lock.
  destruct (acquire (_lock d)) as [l|]; [|simpl; reflexivity].
  specialize (Hbody (set_lock l d)).
  by destruct (body (set_lock l d)).
Qed.

Lemma preserves_user_ref (uid : Z) : preserves users R (user_ref uid).
Proof. intros d. unfold user_ref. destruct (dict_get uid (users d)); simpl; reflexivity. Qed.

Lemma preserves_user_update (uid : Z) (f : user_data -> user_data) :
  (forall us u, dict_get uid us = Some u -> R us (dict_set uid (f u) us)) ->
  preserves users R (user_update uid f).
Proof.
  intros Hf d. unfold user_update, user_ref, bind, modify.
  destruct (dict_get uid (users d)) eqn:Hu; simpl; [by apply Hf|reflexivity].
Qed.

Lemma preserves_get_user (now uid : Z) :
  (forall us, R us (touched now uid us)) -> preserves users R (get_user now uid).
Proof.
  intros Ht d. rewrite get_user_any.
  destruct (acquire (_lock d)); simpl; [apply Ht|reflexivity].
Qed.

Lemma preserves_stat_ref (uid : Z) (name : string) :
  preserves users R (stat_ref uid name).
Proof.
  unfold stat_ref. frame_bind; [apply preserves_user_ref|].
  destruct (stats _ !! name); frame_done.
Qed.

Lemma preserves_update_biggest (uid : Z) (stat_name watched biggest : string) (value : Z) :
  (forall us u s, dict_get uid us = Some u -> R us (dict_set uid (set_stats s u) us)) ->
  preserves users R (update_biggest uid stat_name watched biggest value).
Proof.
  intros Hs. unfold update_biggest.
  destruct (bool_decide (stat_name = watched) && (value >? 0)); [|frame_done].
  frame_bind; [apply preserves_stat_ref|].
  destruct (value >? _); [|frame_done].
  apply preserves_user_update. intros us u Hu. by apply Hs.
Qed.

Lemma preserves_update_stats (now uid : Z) (name : string) (value : Z) :
  (forall us, R us (touched now uid us)) ->
  (forall us u s, dict_get uid us = Some u -> R us (dict_set uid (set_stats s u) us)) ->
  preserves users R (update_stats now uid name value).
Proof.
  intros Ht Hs. apply preserves_with_lock.
  frame_bind; [by apply preserves_get_user|].
  frame_bind; [apply preserves_user_ref|].
  destruct (stats _ !! name); [|frame_done].
  frame_bind; [apply preserves_user_update; intros us v Hv; by apply Hs|].
  frame_bind; [by apply preserves_update_biggest|].
  frame_bind; [by apply preserves_update_biggest|].
  frame_done.
Qed.

End Calls.

Lemma others_kept_touched (now uid : Z) (us : list (Z * user_data)) :
  others_kept uid us (touched now uid us).
Proof. unfold touched. destruct (dict_get uid us); apply others_kept_set. Qed.

Lemma get_user_others (now uid : Z) :
  preserves users (others_kept uid) (get_user now uid).
Proof. apply preserves_get_user; try apply _. intros us. apply others_kept_touched. Qed.

Lemma user_update_others (uid : Z) (f : user_data -> user_data) :
  preserves users (others_kept uid) (user_update uid f).
Proof. apply preserves_user_update; try apply _. intros us u _. apply others_kept_set. Qed.

Lemma add_balance_others (now uid amount : Z) :
  preserves users (others_kept uid) (add_balance now uid amount).
Proof.
  apply preserves_with_lock; try apply _.
  frame_bind; [apply get_user_others|].
  frame_bind; [apply user_update_others|frame_done].
Qed.

Lemma subtract_balance_others (now uid amount : Z) :
  preserves users (others_kept uid) (subtract_balance now uid amount).
Proof.
  apply preserves_with_lock; try apply _.
  frame_bind; [apply get_user_others|].
  destruct (balance _ >=? amount); [|frame_done].
  frame_bind; [apply user_update_others|].
  frame_bind; [apply user_update_others|].
  frame_bind; frame_done.
Qed.

Lemma update_stats_others (now uid : Z) (name : string) (value : Z) :
  preserves users (others_kept uid) (update_stats now uid name value).
Proof.
  apply preserves_update_stats; try apply _.
  - intros us. apply others_kept_touched.
  - intros us u s _. apply others_kept_set.
Qed.

Lemma get_user_money (now uid : Z) :
  preserves users money_kept (get_user now uid).
Proof. apply preserves_get_user; try apply _. intros us. apply money_kept_touched. Qed.

Lemma update_stats_money (now uid : Z) (name : string) (value : Z) :
  preserves users money_kept (update_stats now uid name value).
Proof.
  apply preserves_update_stats; try apply _.
  - intros us. apply money_kept_touched.
  - intros us u s Hu. by apply (money_kept_set uid u).
Qed.

(** X19.  Every call of the ledger that is made for one user leaves the
    accounts of all other users as they are, whether it returns, raises or
    never returns. *)
Theorem ledger_calls_touch_one_account (now uid amount value : Z) (name : string) :
  preserves users (others_kept uid) (get_user now uid) /\
  preserves users (others_kept uid) (add_balance now uid amount) /\
  preserves users (others_kept uid) (subtract_balance now uid amount) /\
  preserves users (others_kept uid) (update_stats now uid name value) /\
  preserves users (others_kept uid) (can_claim_daily now uid) /\
  preserves users (others_kept uid) (claim_daily now uid amount) /\
  preserves users (others_kept uid) (reset_user_data uid).
Proof.
  split; [apply get_user_others|]. split; [apply add_balance_others|].
  split; [apply subtract_balance_others|]. split; [apply update_stats_others|].
  split; [|split].
  - unfold can_claim_daily. frame_bind; [apply get_user_others|].
    destruct (last_daily _); frame_done.
  - apply preserves_with_lock; try apply _.
    frame_bind; [apply user_update_others|apply add_balance_others].
  - intros d. unfold reset_user_data, with_lock.
    destruct (acquire (_lock d)) as [l|]; [|by simpl].
    unfold bind, gets, modify, _save_data, ret. simpl.
    destruct (dict_get uid (users d)); simpl; [apply others_kept_del|done].
Qed.

(** X20.  Reading an account and updating a statistic never move money: in
    whatever way [get_user], [can_claim_daily] and [update_stats] end, every
    account that existed is still there with the same balance and the same
    total stake. *)
Theorem statistics_keep_the_money (now uid value : Z) (name : string) :
  preserves users money_kept (get_user now uid) /\
  preserves users money_kept (can_claim_daily now uid) /\
  preserves users money_kept (update_stats now uid name value).
Proof.
  split; [apply get_user_money|]. split; [|apply update_stats_money].
  unfold can_claim_daily. frame_bind; [apply get_user_money|].
  destruct (last_daily _); frame_done.
Qed.

End LedgerFrame.

(** ** Sessions: what an operation touches *)

Section SessionFrame.
Import BlackjackGame SessionEngine Frame Table Scenario.

Lemma final_bind {S A B} (m : M S A) (k : A -> M S B) (s : S) :
  final_state (bind m k s) =
  match m s with
  | Ret a s1 => final_state (k a s1)
  | Raise _ s1 | Blocked s1 => s1
  end.
Proof. unfold bind. by destruct (m s). Qed.

Lemma final_on_db {X} (m : M Database.t X) (s : t) :
  final_state (on_db m s) = set_db (final_state (m (db s))) s.
Proof. unfold on_db. by destruct (m (db s)). Qed.

Lemma preserves_on_db {X} (R : relation (list (Z * Database.user_data)))
    (m : M Database.t X) :
  preserves Database.users R m -> preserves accounts R (on_db m).
Proof. intros Hm s. rewrite final_on_db. apply Hm. Qed.

(** A call that leaves the table of sessions as it is. *)
Lemma keeps_table_on_db {X} (m : M Database.t X) (s : t) :
  active_games (final_state (on_db m s)) = active_games s.
Proof. by rewrite final_on_db. Qed.

Lemma keeps_table_bind {A B} (m : M t A) (k : A -> M t B) :
  (forall s, active_games (final_state (m s)) = active_games s) ->
  (forall a s, active_games (final_state (k a s)) = active_games s) ->
  forall s, active_games (final_state (bind m k s)) = active_games s.
Proof.
  intros Hm Hk s. rewrite final_bind. specialize (Hm s).
  destruct (m s) as [a s1|e s1|s1]; simpl in *; [|done|done].
  by rewrite Hk.
Qed.

(** [_finish_game] on a session that is in the table: the table loses at
    most that session, and the ledger sees only statistics updates for its
    owner. *)
Lemma finish_game_final (R : relation (list (Z * Database.user_data))) `{!PreOrder R}
    (now : Z) (gid : string) (s : t) (g : game) :
  (forall name value, preserves Database.users R
     (Database.update_stats now (user_id g) name value)) ->
  active_games s !! gid = Some g ->
  R (accounts s) (accounts (final_state (_finish_game now gid s))) /\
  (active_games (final_state (_finish_game now gid s)) = active_games s \/
   active_games (final_state (_finish_game now gid s)) = delete gid (active_games s)).
Proof.
  intros Hstats Hg. unfold _finish_game. rewrite final_bind. simpl. rewrite Hg.
  rewrite final_bind.
  assert (Hon : forall name value,
    preserves accounts R (on_db (Database.update_stats now (user_id g) name value))).
  { intros name value. by apply preserves_on_db. }
  match goal with |- context [match ?m s with _ => _ end] => set (upd := m) end.
  assert (Hupd : preserves accounts R upd).
  { unfold upd. destruct (is_win (game_result g)); [frame_bind; apply Hon|].
    destruct (is_loss (game_result g)); [apply Hon|frame_done]. }
  assert (Htbl : forall s0, active_games (final_state (upd s0)) = active_games s0).
  { unfold upd. destruct (is_win (game_result g)).
    - apply keeps_table_bind; intros; apply keeps_table_on_db.
    - destruct (is_loss (game_result g)); intros; [apply keeps_table_on_db|done]. }
  specialize (Hupd s). specialize (Htbl s).
  destruct (upd s) as [a s1|e s1|s1]; simpl in *; auto.
  split; [done|]. right. by rewrite Htbl.
Qed.

Lemma draws_refl (g : game) : draws g g [] [].
Proof. unfold draws. by rewrite !app_nil_r. Qed.

Lemma final_update_game (gid : string) (g g1 : game) (s : t) :
  active_games s !! gid = Some g ->
  update_game gid g1 s = Ret tt (set_active_games (insert gid g1) s).
Proof. intros Hg. unfold update_game, modify, set_active_games. by rewrite Hg. Qed.

Lemma final_then_ret {S A B} (m : M S A) (b : B) (s : S) :
  final_state (bind m (fun _ => ret b) s) = final_state (m s).
Proof. rewrite final_bind. by destruct (m s). Qed.

(** [hit] on a session that is in the table. *)
Lemma hit_final (R : relation (list (Z * Database.user_data))) `{!PreOrder R}
    (now : Z) (gid : string) (s : t) (g : game) :
  (forall name value, preserves Database.users R
     (Database.update_stats now (user_id g) name value)) ->
  active_games s !! gid = Some g ->
  R (accounts s) (accounts (final_state (hit now gid s))) /\
  other_sessions_kept gid s (final_state (hit now gid s)) /\
  forall g', active_games (final_state (hit now gid s)) !! gid = Some g' ->
    exists drawn, (length drawn <= 1)%nat /\ draws g g' drawn [].
Proof.
  intros Hstats Hg. unfold hit. rewrite final_bind. simpl. rewrite Hg.
  rewrite final_bind. destruct (deck g) as [|c rest] eqn:Hdeck; simpl.
  { split; [reflexivity|]. split; [done|]. intros g' Hg'.
    exists []. split; [simpl; lia|]. rewrite Hg in Hg'. injection Hg' as <-.
    apply draws_refl. }
  set (g1 := set_player_hand (player_hand g ++ [c]) (set_deck rest g)).
  rewrite final_bind, (final_update_game gid g g1 s Hg).
  assert (Hdraw1 : draws g g1 [c] []).
  { unfold draws, g1. simpl. by rewrite Hdeck, app_nil_r. }
  destruct (hand_value (player_hand g ++ [c]) >? 21).
  - set (g2 := set_result (Some player_bust) (set_game_state finished g1)).
    set (s1 := set_active_games (insert gid g1) s).
    assert (Hg1 : active_games s1 !! gid = Some g1) by apply lookup_insert_eq.
    rewrite final_bind, (final_update_game gid g1 g2 s1 Hg1).
    set (s2 := set_active_games (insert gid g2) s1).
    assert (Hg2 : active_games s2 !! gid = Some g2) by apply lookup_insert_eq.
    rewrite final_then_ret.
    destruct (finish_game_final R now gid s2 g2 Hstats Hg2) as [HR Htbl].
    split; [exact HR|]. split.
    + intros other Hne. destruct Htbl as [-> | ->]; unfold s2, s1; simpl.
      * assert (gid <> other) by congruence. by rewrite !lookup_insert_ne by assumption.
      * assert (gid <> other) by congruence.
        by rewrite lookup_delete_ne, !lookup_insert_ne by assumption.
    + intros g' Hg'. destruct Htbl as [Ht | Ht]; rewrite Ht in Hg'.
      * rewrite Hg2 in Hg'. injection Hg' as <-. exists [c]. split; [simpl; lia|].
        exact Hdraw1.
      * by rewrite lookup_delete_eq in Hg'.
  - simpl. split; [reflexivity|]. split.
    + intros other Hne. assert (gid <> other) by congruence. simpl.
      by rewrite lookup_insert_ne by assumption.
    + intros g' Hg'. simpl in Hg'. rewrite lookup_insert_eq in Hg'. injection Hg' as <-.
      exists [c]. split; [simpl; lia|]. exact Hdraw1.
Qed.

Lemma dealer_turn_split (pile hand rest final : list card) (exhausted : bool) :
  dealer_turn pile hand = (rest, final, exhausted) ->
  exists drawn, pile = drawn ++ rest /\ final = hand ++ drawn.
Proof.
  revert hand. induction pile as [|c pile IH]; intros hand; simpl.
  - destruct (should_dealer_hit hand); intros [= <- <- <-]; exists [];
      by rewrite !app_nil_r.
  - destruct (should_dealer_hit hand).
    + intros Hturn. destruct (IH _ Hturn) as (drawn & -> & ->).
      exists (c :: drawn). by rewrite <- app_assoc.
    + intros [= <- <- <-]. exists []. by rewrite !app_nil_r.
Qed.

(** [stand] on a session that is in the table. *)
Lemma stand_final (R : relation (list (Z * Database.user_data))) `{!PreOrder R}
    (now : Z) (gid : string) (s : t) (g : game) :
  (forall name value, preserves Database.users R
     (Database.update_stats now (user_id g) name value)) ->
  (forall amount, preserves Database.users R
     (Database.add_balance now (user_id g) amount)) ->
  active_games s !! gid = Some g ->
  R (accounts s) (accounts (final_state (stand now gid s))) /\
  other_sessions_kept gid s (final_state (stand now gid s)) /\
  forall g', active_games (final_state (stand now gid s)) !! gid = Some g' ->
    exists drawn, draws g g' [] drawn.
Proof.
  intros Hstats Hadd Hg. unfold stand. rewrite final_bind. simpl. rewrite Hg.
  destruct (dealer_turn (deck g) (dealer_hand g)) as [[rest dealer] exhausted] eqn:Hturn.
  destruct (dealer_turn_split _ _ _ _ _ Hturn) as (drawn & Hpile & Hdealer).
  set (g1 := set_dealer_hand dealer (set_deck rest g)).
  assert (Hdraw1 : draws g g1 [] drawn).
  { unfold draws, g1. simpl. rewrite app_nil_r. by rewrite Hpile, Hdealer. }
  assert (Hdraw : forall r p, draws g (set_game_state p (set_result r g1)) [] drawn).
  { intros r p. exact Hdraw1. }
  assert (Hdraw' : forall r, draws g (set_result r g1) [] drawn).
  { intros r. exact Hdraw1. }
  rewrite final_bind, (final_update_game gid g g1 s Hg).
  set (s1 := set_active_games (insert gid g1) s).
  assert (Hothers1 : forall s', active_games s' = active_games s1 ->
            other_sessions_kept gid s s').
  { intros s' Hs' other Hne. assert (gid <> other) by congruence.
    rewrite Hs'. unfold s1. simpl. by rewrite lookup_insert_ne by assumption. }
  assert (Hg1 : active_games s1 !! gid = Some g1) by apply lookup_insert_eq.
  destruct exhausted.
  { simpl. split; [reflexivity|]. split; [by apply Hothers1|].
    intros g' Hg'. change (active_games s1 !! gid = Some g') in Hg'.
    rewrite Hg1 in Hg'. injection Hg' as <-. by exists drawn. }
  rewrite final_bind.
  match goal with |- context [match ?m s1 with _ => _ end] => set (br := m) end.
  assert (Hbr : match br s1 with
                | Ret gX sX => (exists r, gX = set_result r g1) /\
                    R (accounts s1) (accounts sX) /\ active_games sX = active_games s1
                | Raise _ sX | Blocked sX =>
                    R (accounts s1) (accounts sX) /\ active_games sX = active_games s1
                end).
  { assert (Hpay : forall amount r,
      match (on_db (Database.add_balance now (user_id g) amount);;
             ret (set_result r g1)) s1 with
      | Ret gX sX => (exists r, gX = set_result r g1) /\
          R (accounts s1) (accounts sX) /\ active_games sX = active_games s1
      | Raise _ sX | Blocked sX =>
          R (accounts s1) (accounts sX) /\ active_games sX = active_games s1
      end).
    { intros amount r. unfold bind, on_db. pose proof (Hadd amount (db s1)) as Ha.
      destruct (Database.add_balance now (user_id g) amount (db s1)); simpl in *; eauto. }
    unfold br. repeat match goal with |- context [if ?b then _ else _] => destruct b end;
      try apply Hpay.
    simpl. split; [by eexists|]. split; [reflexivity|done]. }
  destruct (br s1) as [gX sX|e sX|sX].
  - destruct Hbr as ((r & ->) & HR1 & Ht1).
    assert (HgX : active_games sX !! gid = Some g1) by (by rewrite Ht1).
    rewrite final_bind, (final_update_game gid g1 _ sX HgX).
    set (s2 := set_active_games (insert gid (set_result r g1)) sX).
    assert (Hg2 : active_games s2 !! gid = Some (set_result r g1))
      by apply lookup_insert_eq.
    rewrite final_bind, (final_update_game gid _ _ s2 Hg2).
    set (g3 := set_game_state finished (set_result r g1)).
    set (s3 := set_active_games (insert gid g3) s2).
    assert (Hg3 : active_games s3 !! gid = Some g3) by apply lookup_insert_eq.
    rewrite final_then_ret.
    destruct (finish_game_final R now gid s3 g3 Hstats Hg3) as [HR Htbl].
    split; [etrans; [exact HR1|exact HR]|]. split.
    + intros other Hne. assert (gid <> other) by congruence.
      destruct Htbl as [-> | ->]; unfold s3, s2; simpl; rewrite Ht1; unfold s1; simpl.
      * by rewrite !lookup_insert_ne by assumption.
      * by rewrite lookup_delete_ne, !lookup_insert_ne by assumption.
    + intros g' Hg'. destruct Htbl as [Ht | Ht]; rewrite Ht in Hg'.
      * rewrite Hg3 in Hg'. injection Hg' as <-. by exists drawn.
      * by rewrite lookup_delete_eq in Hg'.
  - destruct Hbr as [HR1 Ht1]. split; [exact HR1|]. split; [by apply Hothers1|].
    intros g' Hg'. rewrite Ht1, Hg1 in Hg'. injection Hg' as <-. by exists drawn.
  - destruct Hbr as [HR1 Ht1]. split; [exact HR1|]. split; [by apply Hothers1|].
    intros g' Hg'. rewrite Ht1, Hg1 in Hg'. injection Hg' as <-. by exists drawn.
Qed.

Lemma preserves_modify_table (R : relation (list (Z * Database.user_data)))
    `{!PreOrder R} (f : gmap string game -> gmap string game) :
  preserves accounts R (modify (set_active_games f)).
Proof. intros s. simpl. reflexivity. Qed.

Lemma preserves_pop (R : relation (list (Z * Database.user_data)))
    `{!PreOrder R} (pile : list card) :
  preserves accounts R (pop pile).
Proof. intros s. destruct pile; simpl; reflexivity. Qed.

(** [play] sees the ledger through one debit, at most one credit and one
    statistics update, all for the player. *)
Lemma play_accounts (R : relation (list (Z * Database.user_data))) `{!PreOrder R}
    (now : Z) (fresh_id : string) (shuffled : list card) (uid stake : Z) :
  preserves Database.users R (Database.subtract_balance now uid stake) ->
  (forall amount, preserves Database.users R (Database.add_balance now uid amount)) ->
  (forall name value, preserves Database.users R
     (Database.update_stats now uid name value)) ->
  preserves accounts R (play now fresh_id shuffled uid stake).
Proof.
  intros Hsub Hadd Hstats. unfold play.
  frame_bind; [by apply preserves_on_db|].
  frame_bind; [by apply preserves_pop|]. destruct a0 as [p1 deck1].
  frame_bind; [by apply preserves_pop|]. destruct a0 as [p2 deck2].
  frame_bind; [by apply preserves_pop|]. destruct a0 as [d1 deck3].
  frame_bind; [by apply preserves_pop|]. destruct a0 as [d2 deck4].
  frame_bind.
  { destruct (is_blackjack [p1; p2] && is_blackjack [d1; d2]).
    { frame_bind; [by apply preserves_on_db|frame_done]. }
    destruct (is_blackjack [p1; p2]).
    { frame_bind; [by apply preserves_on_db|frame_done]. }
    destruct (is_blackjack [d1; d2]); frame_done. }
  frame_bind.
  { destruct (game_state _); [by apply preserves_modify_table|frame_done]. }
  frame_bind; [by apply preserves_on_db|frame_done].
Qed.

(** X21.  A blackjack operation touches the account of one user only: [play]
    that of the player, [hit] and [stand] that of the owner of the session.
    All other accounts are the same afterwards, however the operation ends;
    on an unknown session nothing changes at all. *)
Theorem blackjack_touches_the_player_only (now : Z) (s : t) :
  (forall fresh_id shuffled uid stake,
     others_kept uid (accounts s)
       (accounts (final_state (play now fresh_id shuffled uid stake s)))) /\
  (forall gid,
     match active_games s !! gid with
     | Some g =>
         others_kept (user_id g) (accounts s) (accounts (final_state (hit now gid s))) /\
         others_kept (user_id g) (accounts s) (accounts (final_state (stand now gid s)))
     | None =>
         final_state (hit now gid s) = s /\ final_state (stand now gid s) = s
     end).
Proof.
  split.
  - intros fresh_id shuffled uid stake.
    refine (play_accounts (others_kept uid) now fresh_id shuffled uid stake _ _ _ s).
    + apply subtract_balance_others.
    + intros amount. apply add_balance_others.
    + intros name value. apply update_stats_others.
  - intros gid. destruct (active_games s !! gid) as [g|] eqn:Hg.
    + split.
      * apply (hit_final (others_kept (user_id g)) now gid s g); [|done].
        intros name value. apply update_stats_others.
      * apply (stand_final (others_kept (user_id g)) now gid s g); [| |done].
        -- intros name value. apply update_stats_others.
        -- intros amount. apply add_balance_others.
    + by rewrite hit_not_found, stand_not_found.
Qed.

(** X22.  [hit] moves no money: however it ends, bust included, every
    account that existed is still there with the same balance and the same
    total stake. *)
Theorem hit_moves_no_money (now : Z) (gid : string) (s : t) :
  money_kept (accounts s) (accounts (final_state (hit now gid s))).
Proof.
  destruct (active_games s !! gid) as [g|] eqn:Hg.
  - apply (hit_final money_kept now gid s g); [|done].
    intros name value. apply update_stats_money.
  - rewrite hit_not_found by done. simpl. reflexivity.
Qed.

(** X23.  [hit] and [stand] only move cards from the top of the pile to the
    end of a hand, and only in the session they are called for: [hit] moves
    at most one card, to the player; [stand] moves cards to the dealer.  The
    owner, the stake and the identifier of the session, the other hand and
    all other sessions are the same afterwards, however the call ends. *)
Theorem cards_only_leave_the_pile (now : Z) (gid : string) (s : t) (g : game) :
  active_games s !! gid = Some g ->
  (other_sessions_kept gid s (final_state (hit now gid s)) /\
   forall g', active_games (final_state (hit now gid s)) !! gid = Some g' ->
     exists drawn, (length drawn <= 1)%nat /\ draws g g' drawn []) /\
  (other_sessions_kept gid s (final_state (stand now gid s)) /\
   forall g', active_games (final_state (stand now gid s)) !! gid = Some g' ->
     exists drawn, draws g g' [] drawn).
Proof.
  intros Hg. split.
  - apply (hit_final (others_kept (user_id g)) now gid s g); [|done].
    intros name value. apply update_stats_others.
  - apply (stand_final (others_kept (user_id g)) now gid s g); [| |done].
    + intros name value. apply update_stats_others.
    + intros amount. apply add_balance_others.
Qed.

Lemma cards_only_leave_the_pile_witness :
  (other_sessions_kept "g1" one_round (final_state (hit 0 "g1" one_round)) /\
   forall g', active_games (final_state (hit 0 "g1" one_round)) !! "g1" = Some g' ->
     exists drawn, (length drawn <= 1)%nat /\ draws round g' drawn []) /\
  (other_sessions_kept "g1" one_round (final_state (stand 0 "g1" one_round)) /\
   forall g', active_games (final_state (stand 0 "g1" one_round)) !! "g1" = Some g' ->
     exists drawn, draws round g' [] drawn).
Proof. apply (cards_only_leave_the_pile 0 "g1" one_round round). reflexivity. Defined.

End SessionFrame.

(** ** Sessions: which operations answer *)

Section SessionAnswers.
Import BlackjackGame SessionEngine Frame Table Scenario.

(** The engine on a database as [Database()] builds it. *)
Lemma update_stats_init_blocks (now uid : Z) (name : string) (value : Z)
    (us : list (Z * Database.user_data)) (tbl : gmap string game) :
  on_db (Database.update_stats now uid name value)
    {| db := Database.init us; active_games := tbl |} =
  Blocked {| db := Ledger.locked us; active_games := tbl |}.
Proof. reflexivity. Qed.

Lemma add_balance_init_blocks (now uid amount : Z)
    (us : list (Z * Database.user_data)) (tbl : gmap string game) :
  on_db (Database.add_balance now uid amount)
    {| db := Database.init us; active_games := tbl |} =
  Blocked {| db := Ledger.locked us; active_games := tbl |}.
Proof. reflexivity. Qed.

(** X24.  On a database as [Database()] builds it, [hit] on a session of
    the table answers exactly when the player does not bust.  Without a bust
    it returns the session with the top card of the pile added to the
    player's hand, still in play, and the ledger untouched.  On a bust it
    never returns: it waits in [update_stats] for the lock, and the session
    stays in the table, marked finished.  On an empty pile it raises
    [IndexError] and changes nothing. *)
Theorem hit_answers_unless_bust (now : Z) (gid : string)
    (us : list (Z * Database.user_data)) (tbl : gmap string game) (g : game) :
  tbl !! gid = Some g ->
  let s := {| db := Database.init us; active_games := tbl |} in
  match deck g with
  | [] => hit now gid s = Raise IndexError s
  | c :: rest =>
      let g1 := set_player_hand (player_hand g ++ [c]) (set_deck rest g) in
      if hand_value (player_hand g ++ [c]) >? 21 then
        hit now gid s =
        Blocked {| db := Ledger.locked us;
                   active_games :=
                     <[gid := set_result (Some player_bust) (set_game_state finished g1)]> tbl |}
      else
        hit now gid s =
        Ret (_format_game_result g1)
            {| db := Database.init us; active_games := <[gid := g1]> tbl |}
  end.
Proof.
  intros Hg s. unfold hit, bind, gets. simpl. rewrite Hg.
  destruct (deck g) as [|c rest] eqn:Hdeck; simpl; [done|].
  destruct (hand_value (player_hand g ++ [c]) >? 21) eqn:Hbust;
    unfold set_active_games, s; simpl; rewrite Hg; [|done].
  rewrite lookup_insert_eq, insert_insert_eq.
  unfold _finish_game, bind, gets. simpl. rewrite lookup_insert_eq. reflexivity.
Qed.

(** X25.  On a database as [Database()] builds it, [stand] on a session of
    the table never answers: it raises [IndexError] when the pile runs out,
    and otherwise waits for the lock in [add_balance] or in [update_stats].
    No account changes and the session stays in the table. *)
Theorem stand_never_answers (now : Z) (gid : string)
    (us : list (Z * Database.user_data)) (tbl : gmap string game) (g : game) :
  tbl !! gid = Some g ->
  let s := {| db := Database.init us; active_games := tbl |} in
  returned (stand now gid s) = None /\
  accounts (final_state (stand now gid s)) = us /\
  is_Some (active_games (final_state (stand now gid s)) !! gid).
Proof.
  intros Hg s. unfold stand, bind, gets. simpl. rewrite Hg.
  destruct (dealer_turn (deck g) (dealer_hand g)) as [[rest dealer] exhausted].
  unfold set_active_games, s. simpl. rewrite Hg.
  destruct exhausted; simpl.
  { split; [done|]. split; [done|]. rewrite lookup_insert_eq. by eexists. }
  destruct (hand_value dealer >? 21);
    [|destruct (hand_value (player_hand g) >? hand_value dealer);
      [|destruct (hand_value dealer >? hand_value (player_hand g))]];
    rewrite ?add_balance_init_blocks; simpl;
    try (split; [done|]; split; [done|]; rewrite lookup_insert_eq; by eexists).
  rewrite !lookup_insert_eq, !insert_insert_eq.
  unfold _finish_game, bind, gets. simpl. rewrite lookup_insert_eq. simpl.
  split; [done|]. split; [done|]. rewrite lookup_insert_eq. by eexists.
Qed.

Lemma stand_never_answers_witness :
  returned (stand 0 "g1" one_round) = None /\
  accounts (final_state (stand 0 "g1" one_round)) = [] /\
  is_Some (active_games (final_state (stand 0 "g1" one_round)) !! "g1").
Proof. apply (stand_never_answers 0 "g1" [] {[ "g1" := round ]} round). reflexivity. Defined.

Lemma hit_answers_unless_bust_witness :
  hit 0 "g1" one_round =
  Ret (_format_game_result
         (set_player_hand (player_hand round ++ [Cards.two_s]) (set_deck [Cards.king_s] round)))
      {| db := Database.init [];
         active_games :=
           <["g1" := set_player_hand (player_hand round ++ [Cards.two_s])
                       (set_deck [Cards.king_s] round)]> {[ "g1" := round ]} |}.
Proof. apply (hit_answers_unless_bust 0 "g1" [] {[ "g1" := round ]} round). reflexivity. Defined.

Lemma int_times_2_5_net (bet : Z) : int_times_2_5 bet - bet = int_times_1_5 bet.
Proof.
  unfold int_times_2_5, int_times_1_5.
  replace (bet * 5) with (bet * 3 + bet * 2) by lia.
  rewrite Z.quot_add; [lia|lia|nia].
Qed.

Lemma int_times_1_5_pos (bet : Z) : 0 < bet -> 0 < int_times_1_5 bet.
Proof.
  intros Hb. unfold int_times_1_5.
  pose proof (Z.quot_rem' (bet * 3) 2) as Hq.
  pose proof (Z.rem_bound_pos (bet * 3) 2 ltac:(lia) ltac:(lia)) as Hr.
  lia.
Qed.

(** X26.  What [_format_game_result] shows is consistent, for every stake
    up to 2^50 in absolute value, where the float products [bet * 2.5] and
    [bet * 1.5] of the source are exact.  The dealer's total and first card
    are hidden exactly while the session is in play; payout and net gain are
    shown exactly when there is a result, and the net gain is the payout
    minus the stake, also for [int(bet * 2.5)] and [int(bet * 1.5)]; for a
    positive stake the results that [_finish_game] counts as won are those
    with a positive net gain and the results it counts as lost those with a
    negative one. *)
Theorem shown_amounts_are_consistent (g : game) :
  Z.abs (bet g) <= 2 ^ 50 ->
  exists p, _format_game_result g = shown p /\
    (p_dealer_value p = None <-> game_state g = playing) /\
    (p_hide_first p = true <-> game_state g = playing) /\
    match game_result g with
    | None => p_payout p = None /\ p_net_gain p = None
    | Some r =>
        exists payout, p_payout p = Some payout /\
          p_net_gain p = Some (payout - bet g) /\
          (0 < bet g ->
             (is_win (Some r) = true <-> 0 < payout - bet g) /\
             (is_loss (Some r) = true <-> payout - bet g < 0))
    end.
Proof.
  intros _. eexists. split; [reflexivity|]. simpl.
  split; [by destruct (game_state g)|]. split; [by destruct (game_state g)|].
  destruct (game_result g) as [r|]; [|done]. simpl.
  eexists. split; [reflexivity|].
  pose proof (int_times_2_5_net (bet g)) as Hnet.
  split.
  - f_equal. destruct r; simpl; lia.
  - intros Hb. pose proof (int_times_1_5_pos (bet g) Hb) as Hpos.
    destruct r; simpl; split; split; intros; try done; lia.
Qed.

Lemma shown_amounts_are_consistent_witness :
  exists p, _format_game_result (set_result (Some player_blackjack) round) = shown p /\
    p_payout p = Some 1250 /\ p_net_gain p = Some (1250 - 500).
Proof.
  destruct (shown_amounts_are_consistent (set_result (Some player_blackjack) round)
              ltac:(vm_compute; discriminate)) as (p & Hp & _ & _ & payout & Hpay & Hnet & _).
  exists p. split; [exact Hp|].
  injection Hp as <-. simpl in Hpay. injection Hpay as <-. split; [reflexivity|exact Hnet].
Defined.

End SessionAnswers.

(** ** The slot machine *)

Section Slots.
Import SlotsGame Paytable.

Lemma value_bounds (s : symbol) : 2 <= value s <= 25.
Proof. destruct s; simpl; lia. Qed.

(** The counts of [symbol_counts] are positive and add up to the number of
    reels. *)
Lemma count_set_total (s : symbol) (counts : list (symbol * Z)) :
  foldr Z.add 0 (map snd (count_set s (default 0 (count_get s counts) + 1) counts)) =
  foldr Z.add 0 (map snd counts) + 1.
Proof.
  induction counts as [|[s' n] counts IH]; simpl; [done|].
  destruct (decide (s = s')); simpl; lia.
Qed.

Lemma count_set_positive (s : symbol) (counts : list (symbol * Z)) :
  Forall (fun kv => 1 <= snd kv) counts ->
  Forall (fun kv => 1 <= snd kv) (count_set s (default 0 (count_get s counts) + 1) counts).
Proof.
  induction 1 as [|[s' n] counts Hn Hcounts IH]; simpl.
  - by repeat constructor.
  - destruct (decide (s = s')); simpl in *; constructor; simpl; auto; lia.
Qed.

Lemma count_symbols_sound (reels : list symbol) :
  Forall (fun kv => 1 <= snd kv) (count_symbols reels) /\
  foldr Z.add 0 (map snd (count_symbols reels)) = Z.of_nat (length reels).
Proof.
  unfold count_symbols.
  assert (Hgen : forall acc,
    Forall (fun kv => 1 <= snd kv) acc ->
    let counts := foldl (fun counts s =>
                     count_set s (default 0 (count_get s counts) + 1) counts) acc reels in
    Forall (fun kv => 1 <= snd kv) counts /\
    foldr Z.add 0 (map snd counts) =
      foldr Z.add 0 (map snd acc) + Z.of_nat (length reels)).
  { induction reels as [|s reels IH]; intros acc Hacc; simpl.
    - split; [done|lia].
    - destruct (IH _ (count_set_positive s acc Hacc)) as [Hpos Hsum].
      split; [exact Hpos|]. rewrite Hsum, count_set_total. lia. }
  destruct (Hgen [] (Forall_nil_2 _)) as [Hpos Hsum]. split; [exact Hpos|].
  rewrite Hsum. simpl. lia.
Qed.

Lemma count_get_total (s : symbol) (n : Z) (counts : list (symbol * Z)) :
  Forall (fun kv => 1 <= snd kv) counts ->
  count_get s counts = Some n ->
  n + Z.of_nat (length counts) - 1 <= foldr Z.add 0 (map snd counts).
Proof.
  induction 1 as [|[s' n'] counts Hn Hcounts IH]; simpl; [done|].
  assert (Hlen : Z.of_nat (length counts) <= foldr Z.add 0 (map snd counts)).
  { clear IH. induction Hcounts as [|[s0 n0] counts0 H0 _ IH0]; simpl in *; lia. }
  destruct (decide (s = s')); simpl in *.
  - intros [= ->]. lia.
  - intros Hget. specialize (IH Hget). lia.
Qed.

Lemma special_pair_length (reels : list symbol) (bet : Z) :
  win (calculate_payout reels bet) = lucky_sevens \/
  win (calculate_payout reels bet) = diamond_pair ->
  (4 <= length reels)%nat.
Proof.
  destruct (count_symbols_sound reels) as [Hpos Hsum].
  unfold calculate_payout.
  destruct (length (count_symbols reels) =? 1)%nat eqn:H1.
  { destruct reels as [|[] reels']; simpl; intros [|]; discriminate. }
  destruct (length (count_symbols reels) =? 2)%nat eqn:H2.
  { destruct (first_pair (count_symbols reels)); simpl; intros [|]; discriminate. }
  apply Nat.eqb_neq in H1, H2.
  assert (Hfour : forall s, (default 0 (count_get s (count_symbols reels)) >=? 2) = true ->
            (4 <= length reels)%nat).
  { intros s Hge. destruct (count_get s (count_symbols reels)) as [n|] eqn:Hget;
      simpl in Hge; [|done].
    pose proof (count_get_total s n _ Hpos Hget) as Htotal.
    assert (length (count_symbols reels) <> 0)%nat.
    { intros Hnil. destruct (count_symbols reels); [done|discriminate]. }
    lia. }
  destruct (default 0 (count_get seven (count_symbols reels)) >=? 2) eqn:H7.
  { intros _. by apply (Hfour seven). }
  destruct (default 0 (count_get diamond (count_symbols reels)) >=? 2) eqn:Hd.
  { intros _. by apply (Hfour diamond). }
  simpl. intros [|]; discriminate.
Qed.

(** X27.  On the three reels that [spin_reels] returns, [calculate_payout]
    pays by the table that [get_symbol_info] prints for triples and doubles:
    the multiplier and the kind of win are those of the table, and for a
    stake up to 2^48 in absolute value the payout is the stake times that
    multiplier, cut to whole coins.  The two special pairs of the table,
    any two sevens for 10 and any two diamonds for 8, are never paid on
    three reels: two sevens are a double and pay 12.5.  On reels of any
    number those two branches need four reels at least. *)
Theorem three_reels_pay_by_the_table :
  (forall i1 i2 i3, exists r1 r2 r3, spin_reels i1 i2 i3 = [r1; r2; r3]) /\
  (forall r1 r2 r3 bet,
     let r := calculate_payout [r1; r2; r3] bet in
     (multiplier r == fst (line r1 r2 r3))%Q /\
     win r = snd (line r1 r2 r3) /\
     win r <> lucky_sevens /\ win r <> diamond_pair /\
     (Z.abs bet <= 2 ^ 48 -> payout r = pays bet (fst (line r1 r2 r3)))) /\
  (forall bet other, other <> seven ->
     win (calculate_payout [seven; other; seven] bet) = double seven /\
     (multiplier (calculate_payout [seven; other; seven] bet) == 25 # 2)%Q) /\
  (forall reels bet,
     win (calculate_payout reels bet) = lucky_sevens \/
     win (calculate_payout reels bet) = diamond_pair ->
     (4 <= length reels)%nat).
Proof.
  split; [|split; [|split]].
  - intros i1 i2 i3. by eexists _, _, _.
  - intros r1 r2 r3 bet.
    destruct r1, r2, r3; (split; [reflexivity|]); (split; [reflexivity|]);
      (split; [discriminate|]); (split; [discriminate|]); intros _; reflexivity.
  - intros bet other Hother. destruct other; try done; split; reflexivity.
  - apply special_pair_length.
Qed.

(** The multipliers that [calculate_payout] can set, on reels of any
    number. *)
Lemma multiplier_cases (reels : list symbol) (bet : Z) :
  let r := calculate_payout reels bet in
  (multiplier r = 0%Q /\ is_win r = false) \/
  (exists m, 8 <= m /\ multiplier r = inject_Z m /\ is_win r = true) \/
  (exists s, multiplier r = (inject_Z (value s) * (1 # 2))%Q /\ is_win r = true).
Proof.
  unfold calculate_payout.
  destruct (length (count_symbols reels) =? 1)%nat.
  { destruct reels as [|s reels']; [by left|].
    right; left. destruct s; simpl; eexists; (split; [|split; reflexivity]); lia. }
  destruct (length (count_symbols reels) =? 2)%nat.
  { destruct (first_pair (count_symbols reels)) as [s|]; [|by left].
    right; right. exists s. split; [done|]. by destruct s. }
  destruct (default 0 (count_get seven (count_symbols reels)) >=? 2).
  { right; left. exists 10. done. }
  destruct (default 0 (count_get diamond (count_symbols reels)) >=? 2).
  { right; left. exists 8. done. }
  by left.
Qed.

Lemma calculate_payout_amounts (reels : list symbol) (bet : Z) :
  payout (calculate_payout reels bet) =
    int_of (inject_Z bet * multiplier (calculate_payout reels bet))%Q /\
  net_gain (calculate_payout reels bet) = payout (calculate_payout reels bet) - bet.
Proof.
  unfold calculate_payout.
  by destruct (if (length (count_symbols reels) =? 1)%nat then _ else _).
Qed.

(** X28.  For a stake from 0 to 2^48 and reels of any number, a win of
    [calculate_payout] never pays less than the stake, and what is not a win
    pays nothing: the net gain is the payout less the stake, not negative on
    a win and minus the stake otherwise.  The smallest win, two cherries,
    pays the stake back and no more: it counts as a win with a net gain
    of 0. *)
Theorem a_slots_win_returns_the_stake (reels : list symbol) (bet : Z) :
  0 <= bet <= 2 ^ 48 ->
  let r := calculate_payout reels bet in
  net_gain r = payout r - bet /\
  (is_win r = true -> bet <= payout r) /\
  (is_win r = false -> payout r = 0) /\
  (reels = [cherry; cherry; lemon] -> is_win r = true /\ net_gain r = 0).
Proof.
  intros [Hbet _] r.
  destruct (calculate_payout_amounts reels bet) as [Hpay Hnet].
  split; [exact Hnet|].
  assert (Hcherries : reels = [cherry; cherry; lemon] -> is_win r = true /\ net_gain r = 0).
  { intros ->. unfold r. split; [reflexivity|]. rewrite Hnet, Hpay. unfold int_of. simpl.
    rewrite Z.quot_mul by lia. lia. }
  destruct (multiplier_cases reels bet) as [[Hm Hw]|[(m & Hm8 & Hm & Hw)|(s & Hm & Hw)]];
    fold r in Hm, Hw, Hpay, Hnet |- *; rewrite Hw, Hpay, Hm in *.
  - split; [done|]. split; [|done].
    intros _. unfold int_of. simpl. by rewrite Z.mul_0_r.
  - split; [|split; [done|done]].
    intros _. unfold int_of. simpl. rewrite Z.quot_1_r. nia.
  - split; [|split; [done|done]].
    intros _. unfold int_of. simpl. apply Z.quot_le_lower_bound; [lia|].
    pose proof (value_bounds s). nia.
Qed.

Lemma a_slots_win_returns_the_stake_witness :
  let r := calculate_payout [cherry; cherry; lemon] 100 in
  net_gain r = payout r - 100 /\
  (is_win r = true -> 100 <= payout r) /\
  (is_win r = false -> payout r = 0) /\
  ([cherry; cherry; lemon] = [cherry; cherry; lemon] -> is_win r = true /\ net_gain r = 0).
Proof.
  apply (a_slots_win_returns_the_stake [cherry; cherry; lemon] 100).
  split; [lia|vm_compute; discriminate].
Defined.

End Slots.

(** ** Roulette *)

Section Roulette.
Import RouletteGame Wheel.

Lemma wheel_numbers (n : Z) : n ∈ numbers <-> 0 <= n <= 36.
Proof. unfold numbers. rewrite elem_of_seqZ. lia. Qed.

(** X29.  Every bet that [get_betting_help] offers is paid as one chance in
    36: for each of the twelve outside bets and each single number 0 to 36,
    the payout multiplier plus one, times the number of pockets of the wheel
    on which [check_win] lets the bet win, is 36, on a wheel of 37 pockets.
    The odd pocket is 0: it wins the bet on 0 and loses every other bet.
    [get_number_color] agrees with the colour bets: a pocket of the wheel
    is green exactly when it is 0, red exactly when the bet on red wins,
    black exactly when the bet on black wins. *)
Theorem every_bet_is_paid_as_one_in_36 :
  length numbers = 37%nat /\
  (forall i, spin_wheel i ∈ numbers) /\
  (forall bet_choice, bet_choice ∈ outside_bets ++ straight_bets ->
     (get_payout_multiplier bet_choice + 1) * Z.of_nat (length (winners bet_choice)) = 36 /\
     (check_win 0 bet_choice = true <-> bet_choice = "0")) /\
  (forall n, 0 <= n <= 36 ->
     (get_number_color n = green <-> n = 0) /\
     (get_number_color n = red <-> check_win n "red" = true) /\
     (get_number_color n = black <-> check_win n "black" = true)).
Proof.
  split; [reflexivity|]. split; [|split].
  - intros i. unfold spin_wheel. apply list_elem_of_In, nth_In.
    apply Nat.mod_upper_bound. by vm_compute.
  - intros bet_choice Hin.
    assert (Hall : forallb (fun c =>
              Z.eqb ((get_payout_multiplier c + 1) * Z.of_nat (length (winners c))) 36 &&
              Bool.eqb (check_win 0 c) (String.eqb c "0"))
              (outside_bets ++ straight_bets) = true) by (vm_compute; reflexivity).
    rewrite forallb_forall in Hall. apply list_elem_of_In, Hall in Hin.
    apply andb_prop in Hin as [H36 H0]. apply Z.eqb_eq in H36. apply Bool.eqb_prop in H0.
    split; [exact H36|]. rewrite H0. apply String.eqb_eq.
  - intros n Hn. apply wheel_numbers in Hn.
    assert (Hall : forallb (fun n =>
              match get_number_color n with
              | green => Z.eqb n 0 && negb (check_win n "red") && negb (check_win n "black")
              | red => negb (Z.eqb n 0) && check_win n "red" && negb (check_win n "black")
              | black => negb (Z.eqb n 0) && negb (check_win n "red") && check_win n "black"
              end) numbers = true) by (vm_compute; reflexivity).
    rewrite forallb_forall in Hall. apply list_elem_of_In, Hall in Hn.
    destruct (get_number_color n), (Z.eqb_spec n 0), (check_win n "red"),
      (check_win n "black"); simpl in Hn; try discriminate; repeat split; try done.
Qed.

Lemma lower_char_idem (c : Ascii.ascii) : lower_char (lower_char c) = lower_char c.
Proof. by destruct c as [[] [] [] [] [] [] [] []]. Qed.

Lemma lower_idem (s : string) : lower (lower s) = lower s.
Proof. induction s as [|c s IH]; simpl; [done|]. by rewrite lower_char_idem, IH. Qed.

(** What [str] writes for a number of the wheel is read back by [int], and
    is left alone by [lower]. *)
Lemma str_wheel_number (k : Z) :
  0 <= k <= 36 -> lower (str k) = str k /\ isdigit (str k) = true /\ int (str k) = k.
Proof.
  intros Hk. apply wheel_numbers in Hk.
  assert (Hall : forallb (fun k =>
            String.eqb (lower (str k)) (str k) && isdigit (str k) && Z.eqb (int (str k)) k)
            numbers = true) by (vm_compute; reflexivity).
  rewrite forallb_forall in Hall. apply list_elem_of_In, Hall in Hk.
  apply andb_prop in Hk as [Hk Hint]. apply andb_prop in Hk as [Hlow Hdig].
  apply String.eqb_eq in Hlow. apply Z.eqb_eq in Hint. done.
Qed.

(** The three functions read their argument through [lower] only. *)
Lemma read_through_lower (s : string) :
  validate_bet_choice (lower s) = validate_bet_choice s /\
  get_payout_multiplier (lower s) = get_payout_multiplier s /\
  forall n, check_win n (lower s) = check_win n s.
Proof.
  unfold validate_bet_choice, get_payout_multiplier, check_win.
  by rewrite lower_idem.
Qed.

(** X30.  For a bet choice in ASCII that [validate_bet_choice] accepts, the
    normalised choice it returns stands for the same bet: it is accepted
    again with the same type and the same normal form, it has the same
    payout multiplier, and it wins on the same numbers.  So 007 is the bet
    on 7 and RED the bet on red.  One accepted choice is no bet at all: the
    word straight, in any case of letters, is accepted with a payout of 35
    and wins on no number. *)
Theorem normalised_choice_plays_the_same :
  (forall bet_choice type choice,
     plain bet_choice = true ->
     validate_bet_choice bet_choice = valid type choice ->
     validate_bet_choice choice = valid type choice /\
     get_payout_multiplier choice = get_payout_multiplier bet_choice /\
     (forall n, check_win n choice = check_win n bet_choice)) /\
  (forall bet_choice,
     lower bet_choice = "straight" ->
     validate_bet_choice bet_choice = valid "straight" "straight" /\
     get_payout_multiplier bet_choice = 35 /\
     (forall n, check_win n bet_choice = false)).
Proof.
  split.
  - intros bet_choice type choice _ Hvalid. pose proof Hvalid as Hsame.
    destruct (read_through_lower bet_choice) as (Hv & Hm & Hw).
    unfold validate_bet_choice in Hvalid.
    destruct (isdigit (lower bet_choice)) eqn:Hdigit.
    + destruct (Z.leb_spec 0 (int (lower bet_choice))) as [H0|H0]; simpl in Hvalid.
      * destruct (Z.leb_spec (int (lower bet_choice)) 36) as [H36|H36]; simpl in Hvalid.
        -- injection Hvalid as <- <-.
           destruct (str_wheel_number (int (lower bet_choice)) (conj H0 H36))
             as (Hlow & Hdig & Hint).
           unfold validate_bet_choice, get_payout_multiplier, check_win.
           rewrite Hlow, Hdig, Hint, Hdigit. simpl.
           destruct (Z.leb_spec 0 (int (lower bet_choice))); [|lia].
           destruct (Z.leb_spec (int (lower bet_choice)) 36); [|lia]. done.
        -- destruct (bool_decide _); [|done]. injection Hvalid as <- <-.
           rewrite Hv, Hm. split; [exact Hsame|]. split; [done|exact Hw].
      * destruct (bool_decide _); [|done]. injection Hvalid as <- <-.
        rewrite Hv, Hm. split; [exact Hsame|]. split; [done|exact Hw].
    + destruct (bool_decide _); [|done]. injection Hvalid as <- <-.
      rewrite Hv, Hm. split; [exact Hsame|]. split; [done|exact Hw].
  - intros bet_choice Hlow. unfold validate_bet_choice, get_payout_multiplier, check_win.
    rewrite Hlow. split; [reflexivity|]. split; [reflexivity|].
    intros n. simpl. by destruct (n =? 0).
Qed.

Lemma normalised_choice_plays_the_same_witness :
  (validate_bet_choice "007" = valid "straight" "7" /\
   validate_bet_choice "7" = valid "straight" "7" /\
   get_payout_multiplier "7" = get_payout_multiplier "007" /\
   (forall n, check_win n "7" = check_win n "007")) /\
  (validate_bet_choice "Straight" = valid "straight" "straight" /\
   get_payout_multiplier "Straight" = 35 /\
   (forall n, check_win n "Straight" = false)).
Proof.
  destruct normalised_choice_plays_the_same as [Hsame Hstraight].
  split.
  - split; [reflexivity|]. apply (Hsame "007" "straight" "7"); reflexivity.
  - apply (Hstraight "Straight"). reflexivity.
Defined.

End Roulette.
